(** * Offer pipeline and date engine of [HoangChu_Ascenda_OA.py]

    A shallow embedding of the class [APIHandling]: the calendar helpers
    ([_get_year_month_day_from_str], [_is_valid_date], [_get_last_stay_date],
    [_is_expired]) and the filter stages ([category_filter], [date_filter],
    [merchant_filter], [closest_merchant_per_category_filter],
    [top_two_offers_filter]), followed by the properties stated for them.

    Conventions.
    - Python integers are [Z]. A JSON number is a [number]: a canonical
      rational [Qc] (every finite int or float is one, and Python compares
      them exactly) or a float infinity, which is what the decoder makes of
      a literal beyond the range of floats. The decoder's non-standard
      [NaN], neither ordered nor equal to itself, has no representation
      here.
    - Strings are sequences of characters of code below 256. [int] and
      [upper] are modelled on these characters: [int] with the blanks, the
      sign, the underscores and the limit on the number of digits that
      Python gives it, [upper] with the capital forms that stay below 256.
    - A JSON object is a [gmap string value]; an offer is such an object
      living in a store of objects, and the working set [self.offers] is a
      list of references into that store, so that an offer listed twice is
      one object.
    - A raised exception is [Raise e]; [print] appends to an output log.
    - The debug dumps of [TestFilter] (one file per stage) are diagnostic I/O
      and are left out. *)

From Stdlib Require Import ZArith QArith Qcanon String Ascii List Lia Bool.
From stdpp Require Import base option list functions gmap strings.

#[local] Set Warnings "-register-all".
#[local] Open Scope Z_scope.

(** ** Exceptions, results and printed output *)

Inductive exn :=
| AssertionError
| IndexError
| KeyError
| ValueError
| TypeError
| AttributeError
| JSONDecodeError.

Inductive result (A : Type) :=
| Ok (a : A)
| Raise (e : exn).
Arguments Ok {A} a.
Arguments Raise {A} e.

#[global] Instance result_ret : MRet result := fun _ a => Ok a.
#[global] Instance result_bind : MBind result := fun _ _ f r =>
  match r with
  | Ok a => f a
  | Raise e => Raise e
  end.

(** What the program prints.  Each constructor stands for one [print] call;
    its arguments are the values interpolated into the message. *)
Inductive message :=
| MsgFixUrl (status_code : Z)
| MsgInvalidMonth (year month day : Z)
| MsgInvalidDay (year month day : Z)
| MsgAtMost31.

(** A computation that may print and may raise: the lines printed so far,
    and the outcome. *)
Definition py (A : Type) : Type := (list message * result A)%type.

#[global] Instance py_ret : MRet py := fun _ a => ([], Ok a).
#[global] Instance py_bind : MBind py := fun _ _ f m =>
  match m with
  | (out, Ok a) => let '(out', r) := f a in (out ++ out', r)
  | (out, Raise e) => (out, Raise e)
  end.

Definition lift {A} (r : result A) : py A := ([], r).
Definition print (m : message) : py unit := ([m], Ok tt).

Definition assert (b : bool) : result unit :=
  if b then Ok tt else Raise AssertionError.

(** ** Strings *)

Definition char_code (c : ascii) : Z := Z.of_nat (nat_of_ascii c).

(** ['0' <= char <= '9'] *)
Definition is_digit (c : ascii) : bool :=
  (char_code "0" <=? char_code c) && (char_code c <=? char_code "9").

Definition is_dash (c : ascii) : bool := Ascii.eqb c "-".

(** [s.split("-")]: always at least one field, empty fields are kept. *)
Fixpoint str_split_dash (s : string) : list string :=
  match s with
  | EmptyString => [EmptyString]
  | String c s' =>
      if is_dash c then EmptyString :: str_split_dash s'
      else match str_split_dash s' with
           | f :: fs => String c f :: fs
           | [] => [String c EmptyString]
           end
  end.

Definition str_len (s : string) : Z := Z.of_nat (String.length s).

Definition all_chars (p : ascii -> bool) (s : string) : bool :=
  forallb p (list_ascii_of_string s).

Fixpoint decimal_value_from (acc : Z) (s : string) : Z :=
  match s with
  | EmptyString => acc
  | String c s' => decimal_value_from (10 * acc + (char_code c - char_code "0")) s'
  end.

Definition decimal_value (s : string) : Z := decimal_value_from 0 s.

(** The blanks that [int] strips at both ends: tab to carriage return,
    space, next line (133) and no-break space (160). *)
Definition is_space (c : ascii) : bool :=
  let n := char_code c in
  ((9 <=? n) && (n <=? 13)) || (n =? 32) || (n =? 133) || (n =? 160).

Definition is_underscore (c : ascii) : bool := Ascii.eqb c "_".

Fixpoint lstrip (s : string) : string :=
  match s with
  | EmptyString => EmptyString
  | String c s' => if is_space c then lstrip s' else s
  end.

Fixpoint rstrip (s : string) : string :=
  match s with
  | EmptyString => EmptyString
  | String c s' =>
      match rstrip s' with
      | EmptyString => if is_space c then EmptyString else String c EmptyString
      | t => String c t
      end
  end.

(** The body of a decimal literal: digits, with single underscores allowed
    between two digits.  [after_digit] tells whether the character before
    was a digit. *)
Fixpoint int_literal (after_digit : bool) (s : string) : bool :=
  match s with
  | EmptyString => after_digit
  | String c s' =>
      if is_digit c then int_literal true s'
      else if is_underscore c then after_digit && int_literal false s'
      else false
  end.

Fixpoint digits_of (s : string) : string :=
  match s with
  | EmptyString => EmptyString
  | String c s' => if is_digit c then String c (digits_of s') else digits_of s'
  end.

(** [sys.get_int_max_str_digits()], at its default. *)
Definition int_max_str_digits : Z := 4300.

(** [int(s)]: blanks are stripped, a sign may come first, the rest is a
    decimal literal; anything else is a [ValueError], and so is a literal
    of more than [int_max_str_digits] digits. *)
Definition int_of_str (s : string) : result Z :=
  let t := rstrip (lstrip s) in
  let '(negative, body) :=
    match t with
    | EmptyString => (false, t)
    | String c t' =>
        if Ascii.eqb c "+" then (false, t')
        else if Ascii.eqb c "-" then (true, t')
        else (false, t)
    end in
  let digits := digits_of body in
  if int_literal false body && (str_len digits <=? int_max_str_digits)
  then Ok (if (negative : bool) then - decimal_value digits
           else decimal_value digits)
  else Raise ValueError.

(** [c.upper()] for a character of code below 256: the letters a to z
    and the accented letters 224 to 254 (247, the division sign, apart) move
    down by 32, and the sharp s (223) becomes "SS".  The micro sign (181)
    and the y with diaeresis (255) have an uppercase form of code above 255:
    they are left as they are here, and what is stated about uppercasing
    leaves them out. *)
Definition char_upper (c : ascii) : string :=
  let n := char_code c in
  if ((97 <=? n) && (n <=? 122)) ||
     ((224 <=? n) && (n <=? 254) && negb (n =? 247))
  then String (ascii_of_nat (nat_of_ascii c - 32)) EmptyString
  else if n =? 223 then "SS"
  else String c EmptyString.

Fixpoint str_upper (s : string) : string :=
  match s with
  | EmptyString => EmptyString
  | String c s' => char_upper c +:+ str_upper s'
  end.

(** [l[i]] on a list. *)
Definition list_index {A} (l : list A) (i : nat) : result A :=
  match l !! i with
  | Some x => Ok x
  | None => Raise IndexError
  end.

(** ** Date engine *)

Definition date : Type := (Z * Z * Z)%type.

Definition _get_year_month_day_from_str (cur_date_str : string) : result date :=
  let cur_dates := str_split_dash cur_date_str in
  f0 ← list_index cur_dates 0;
  f1 ← list_index cur_dates 1;
  f2 ← list_index cur_dates 2;
  let '(cur_year_str, cur_month_str, cur_day_str) := (f0, f1, f2) in
  let '(cur_year_str, cur_month_str, cur_day_str) :=
    if str_len f1 =? 4 then (f1, f0, f2)
    else (cur_year_str, cur_month_str, cur_day_str) in
  let '(cur_year_str, cur_month_str, cur_day_str) :=
    if str_len f2 =? 4 then (f2, f0, f1)
    else (cur_year_str, cur_month_str, cur_day_str) in
  cur_year ← int_of_str cur_year_str;
  cur_month ← int_of_str cur_month_str;
  cur_day ← int_of_str cur_day_str;
  Ok (cur_year, cur_month, cur_day).

Definition is_leap_year (year : Z) : bool := year mod 4 =? 0.

Definition _get_no_days_in (year month : Z) : result Z :=
  _ ← assert ((1 <=? month) && (month <=? 12));
  if month =? 2 then Ok (if is_leap_year year then 29 else 28)
  else Ok (if existsb (Z.eqb month) [4; 6; 9; 11] then 30 else 31).

Definition date_char (c : ascii) : bool := is_digit c || is_dash c.

Definition _is_valid_date (date_str : string) (is_testing : bool) : py bool :=
  if String.eqb date_str "" then mret false
  else if negb (all_chars date_char date_str) then mret false
  else
    '(year, month, day) ← lift (_get_year_month_day_from_str date_str);
    let is_valid_month := (1 <=? month) && (month <=? 12) in
    if negb is_valid_month then
      _ ← (if negb is_testing then print (MsgInvalidMonth year month day)
           else mret tt);
      mret false
    else
      LAST_DAY ← lift (_get_no_days_in year month);
      let is_valid_day := (1 <=? day) && (day <=? LAST_DAY) in
      if negb is_valid_day then
        _ ← (if negb is_testing then print (MsgInvalidDay year month day)
             else mret tt);
        mret false
      else mret true.

Definition _get_last_stay_date (date_str : string) (no_extended_days : Z)
  : py date :=
  valid ← _is_valid_date date_str true;
  _ ← lift (assert valid);
  if no_extended_days >? 31 then
    _ ← print MsgAtMost31;
    mret (-1, -1, -1)
  else
    '(cur_year, cur_month, cur_day) ← lift (_get_year_month_day_from_str date_str);
    no_days_in_cur_month ← lift (_get_no_days_in cur_year cur_month);
    if cur_day + no_extended_days >? no_days_in_cur_month then
      let new_month := cur_month + 1 in
      let '(new_year, new_month) :=
        if new_month >? 12 then (cur_year + 1, 1) else (cur_year, new_month) in
      mret (new_year, new_month, cur_day + no_extended_days - no_days_in_cur_month)
    else
      mret (cur_year, cur_month, cur_day + no_extended_days).

(** ** JSON values and the Python operations applied to them *)

(** A number as Python holds it: an exact finite one, or a float
    infinity, which is what a JSON literal beyond the range of floats
    (1e999, -1e999) is parsed to, and what [math.inf] is. *)
Inductive number :=
| Finite (q : Qc)
| Infinity (negative : bool).

#[global] Instance number_eq_dec : EqDecision number.
Proof. solve_decision. Defined.

(** [x < y] *)
Definition number_ltb (x y : number) : bool :=
  match x, y with
  | Finite p, Finite q => bool_decide (p < q)%Qc
  | Finite _, Infinity negative => negb negative
  | Infinity negative, Finite _ => negative
  | Infinity n1, Infinity n2 => n1 && negb n2
  end.

Definition math_inf : number := Infinity false.

Inductive value :=
| VNone
| VBool (b : bool)
| VNum (x : number)
| VStr (s : string)
| VList (l : list value)
| VDict (d : gmap string value).

Definition VInt (z : Z) : value := VNum (Finite (Q2Qc (inject_Z z))).

(** The number a value stands for in [==] and [<].  [bool] is a subclass
    of [int]: [True] and [False] count as 1 and 0. *)
Definition numeric (v : value) : option number :=
  match v with
  | VNum x => Some x
  | VBool b => Some (Finite (if b then 1%Qc else 0%Qc))
  | _ => None
  end.

(** That number, when it is finite. *)
Definition as_number (v : value) : option Qc :=
  if numeric v is Some (Finite q) then Some q else None.

(** [x == y] when one side at least is [None], a bool, a number or a
    string (a list or a dict is then different from it). *)
Definition py_eqb (x y : value) : bool :=
  match numeric x, numeric y with
  | Some p, Some q => bool_decide (p = q)
  | None, None =>
      match x, y with
      | VNone, VNone => true
      | VStr s, VStr t => String.eqb s t
      | _, _ => false
      end
  | _, _ => false
  end.

Definition hashable (v : value) : bool :=
  match v with
  | VList _ | VDict _ => false
  | _ => true
  end.

(** Truth value of an object, as tested by [if x:] and [not x]. *)
Definition truthy (v : value) : bool :=
  match v with
  | VNone => false
  | VBool b => b
  | VNum x => negb (bool_decide (x = Finite 0%Qc))
  | VStr s => negb (String.eqb s "")
  | VList l => negb (bool_decide (length l = 0%nat))
  | VDict d => negb (bool_decide (size d = 0%nat))
  end.

(** [k in v] for a string [k]: a key of a dict, an element of a list, a
    substring of a string. *)
Definition py_contains (k : string) (v : value) : result bool :=
  match v with
  | VDict d => Ok (bool_decide (is_Some (d !! k)))
  | VList l => Ok (existsb (py_eqb (VStr k)) l)
  | VStr s => Ok (if String.index 0 k s is Some _ then true else false)
  | _ => Raise TypeError
  end.

(** [v[k]] for a string [k]. *)
Definition subscript_key (v : value) (k : string) : result value :=
  match v with
  | VDict d => if d !! k is Some x then Ok x else Raise KeyError
  | _ => Raise TypeError
  end.

(** [v[0]]; the keys of a JSON object are strings, so 0 is never one. *)
Definition subscript_0 (v : value) : result value :=
  match v with
  | VList l => if l is x :: _ then Ok x else Raise IndexError
  | VStr s => if s is String c _ then Ok (VStr (String c EmptyString))
              else Raise IndexError
  | VDict _ => Raise KeyError
  | _ => Raise TypeError
  end.

(** [len(v)] *)
Definition py_len (v : value) : result Z :=
  match v with
  | VList l => Ok (Z.of_nat (length l))
  | VStr s => Ok (str_len s)
  | VDict d => Ok (Z.of_nat (size d))
  | _ => Raise TypeError
  end.

(** [v[k] = x] *)
Definition set_item (v : value) (k : string) (x : value) : result value :=
  match v with
  | VDict d => Ok (VDict (<[k := x]> d))
  | _ => Raise TypeError
  end.

(** [v.split(...)] is an attribute of strings only. *)
Definition str_of (v : value) : result string :=
  match v with
  | VStr s => Ok s
  | _ => Raise AttributeError
  end.

(** [x in s] and [s.add(x)] for a set [s], kept as the list of its
    elements. *)
Definition set_contains (x : value) (s : list value) : result bool :=
  if hashable x then Ok (existsb (py_eqb x) s) else Raise TypeError.

Definition set_add (x : value) (s : list value) : result (list value) :=
  if hashable x then Ok (if existsb (py_eqb x) s then s else s ++ [x])
  else Raise TypeError.

(** The operand of a comparison with a number: a number itself, or a
    [TypeError].  (Python also orders strings among themselves, and lists;
    comparisons are modelled on numbers only.) *)
Definition number_of (v : value) : result number :=
  if numeric v is Some x then Ok x else Raise TypeError.

(** A [for] loop threading an accumulator, in any monad. *)
Fixpoint for_each {M} `{!MBind M, !MRet M} {A B}
    (body : B -> A -> M B) (acc : B) (l : list A) : M B :=
  match l with
  | [] => mret acc
  | x :: l' => acc' ← body acc x; for_each body acc' l'
  end.

(** [l.sort(key=key)]: a stable ascending sort.  The keys are all computed
    first; they are compared only when there are two elements or more.
    Numbers are ordered; other keys (strings among themselves, say) are
    treated as unorderable. *)
Fixpoint insert_by_key {A} (x : number * A) (l : list (number * A))
  : list (number * A) :=
  match l with
  | [] => [x]
  | y :: l' =>
      if number_ltb y.1 x.1 then y :: insert_by_key x l' else x :: l
  end.

Definition stable_sort {A} (l : list (number * A)) : list (number * A) :=
  foldr insert_by_key [] l.

Definition sort_by_key {A} (key : A -> result value) (l : list A)
  : result (list A) :=
  keys ← mapM key l;
  if (length l <? 2)%nat then Ok l
  else nums ← mapM number_of keys;
       Ok (map snd (stable_sort (zip nums l))).

Definition list_sort (v : value) (key : value -> result value) : result value :=
  match v with
  | VList l => l' ← sort_by_key key l; Ok (VList l')
  | _ => Raise AttributeError
  end.

(** ** The object: check-in date, working set and the store of offers *)

Definition loc := nat.

Record APIHandling := {
  checkin_date : string;
  offers : list loc;
  heap : loc -> value
}.

Definition set_offers (self : APIHandling) (answers : list loc) : APIHandling :=
  {| checkin_date := checkin_date self; offers := answers; heap := heap self |}.

Definition set_heap (self : APIHandling) (h : loc -> value) : APIHandling :=
  {| checkin_date := checkin_date self; offers := offers self; heap := h |}.

(** The working set as a list of offer values. *)
Definition working_set (self : APIHandling) : list value :=
  map (heap self) (offers self).

(** A freshly parsed payload: one object per offer, none shared. *)
Definition load_offers (date_str : string) (os : list value) : APIHandling :=
  {| checkin_date := date_str;
     offers := seq 0 (length os);
     heap := fun a => nth a os VNone |}.

(** ** Construction *)

Record response := {
  status_code : Z;
  json : result value
}.

Definition _is_valid_response (r : response) : py bool :=
  _ ← (if negb (status_code r =? 200) then print (MsgFixUrl (status_code r))
       else mret tt);
  mret true.

Definition _validate_input (r : response) (_checkin_date : string) : py bool :=
  ok ← _is_valid_response r;
  if (ok : bool) then _is_valid_date _checkin_date false else mret false.

Definition _receive_offers (r : response) : result value :=
  response_json ← json r;
  has ← py_contains "offers" response_json;
  _ ← assert has;
  subscript_key response_json "offers".

(** [__init__]: the two attributes of the object built, [self.offers] and
    [self.checkin_date]. *)
Definition __init__ (r : response) (_checkin_date : string) : py (value * string) :=
  valid ← _validate_input r _checkin_date;
  _ ← lift (assert valid);
  os ← lift (_receive_offers r);
  mret (os, _checkin_date).

(** ** Helpers of the filters *)

Definition CATEGORY : list (Z * string) :=
  [(1, "RESTAURANT"); (2, "RETAIL"); (3, "HOTEL"); (4, "ACTIVITY")]%string.

Definition _standardize_category_names (category_names : list string)
  : list string :=
  map str_upper category_names.

Definition _get_category_enum (category_id : value) : result string :=
  _ ← assert (existsb (fun c => py_eqb category_id (VInt c.1)) CATEGORY);
  if find (fun c => py_eqb category_id (VInt c.1)) CATEGORY is Some c
  then Ok c.2
  else Raise ValueError.

(** The map built by [_get_category_offers_map] is iterated in insertion
    order, so it is kept as an association list with distinct keys. *)
Definition category_map : Type := list (string * list loc).

Definition map_has (name : string) (m : category_map) : bool :=
  existsb (fun e => String.eqb name e.1) m.

(** [if name not in m: m[name] = []] followed by [m[name].append(a)] *)
Definition map_append (name : string) (a : loc) (m : category_map)
  : category_map :=
  if map_has name m
  then map (fun e => if String.eqb name e.1 then (e.1, e.2 ++ [a]) else e) m
  else m ++ [(name, [a])].

(** [m[name]] *)
Definition map_get (name : string) (m : category_map) : result (list loc) :=
  if find (fun e => String.eqb name e.1) m is Some e then Ok e.2
  else Raise KeyError.

Definition _get_category_offers_map (self : APIHandling) : result category_map :=
  for_each (fun (ategory_offers_map : category_map) (a : loc) =>
      let offer := heap self a in
      has ← py_contains "category" offer;
      _ ← assert has;
      category_id ← subscript_key offer "category";
      category_name ← _get_category_enum category_id;
      Ok (map_append category_name a ategory_offers_map))
    [] (offers self).

(** The Python function returns [True], [False], or nothing at all
    ([None]) when the years are equal and the month is smaller.  The third
    parameter is rebound but never read: the date used is always
    [self.checkin_date]. *)
Definition _is_expired (self : APIHandling) (valid_to_date_str : value)
    (no_extended_days : Z) (checkin_date_arg : string) : py (option bool) :=
  '(cur_year, cur_month, cur_day) ←
     _get_last_stay_date (checkin_date self) no_extended_days;
  s ← lift (str_of valid_to_date_str);
  '(expiry_year, expiry_month, expiry_day) ← lift (_get_year_month_day_from_str s);
  if cur_year >? expiry_year then mret (Some true)
  else if cur_year =? expiry_year then
    if cur_month >? expiry_month then mret (Some true)
    else if cur_month =? expiry_month then
      if cur_day >? expiry_day then mret (Some true)
      else mret (Some false)
    else mret None
  else mret (Some false).

(** [not x] for what [_is_expired] returns. *)
Definition py_not (x : option bool) : bool :=
  match x with
  | Some b => negb b
  | None => true
  end.

Definition _get_offer_merchants (offer : value) : result value :=
  has ← py_contains "merchants" offer;
  _ ← assert has;
  subscript_key offer "merchants".

Definition _get_offer_id (offer : value) : result value :=
  has ← py_contains "id" offer;
  _ ← assert has;
  subscript_key offer "id".

(** The loop state is [(min_merchant_dist, closest_merchant_offer)]: the
    least distance so far as a number, [math.inf] at first, and the offer
    held, [None] at first. *)
Definition _get_closest_merchant_offer (self : APIHandling)
    (seen_offers_set : list value) : result (option loc) :=
  r ← for_each (fun (acc : number * option loc) (a : loc) =>
      let '(min_merchant_dist, closest_merchant_offer) := acc in
      let offer := heap self a in
      offer_id ← _get_offer_id offer;
      is_seen ← set_contains offer_id seen_offers_set;
      if negb is_seen then
        cur_merchant ← _get_offer_merchants offer;
        has ← py_contains "distance" cur_merchant;
        _ ← assert has;
        cur_merchant_dist ← subscript_key cur_merchant "distance";
        (* [cur_merchant_dist < min_merchant_dist] *)
        cur ← number_of cur_merchant_dist;
        Ok (if number_ltb cur min_merchant_dist then (cur, Some a)
            else (min_merchant_dist, closest_merchant_offer))
      else Ok (min_merchant_dist, closest_merchant_offer))
    (math_inf, None) (offers self);
  Ok r.2.

(** ** The filters *)

Definition category_filter (desired_categories : list string)
    (self : APIHandling) : result APIHandling :=
  let category_names_set := _standardize_category_names desired_categories in
  categoryName_offers_map ← _get_category_offers_map self;
  answers ← for_each (fun (answers : list loc) category_name =>
      group ← map_get category_name categoryName_offers_map;
      Ok (answers ++ group))
    [] category_names_set;
  Ok (set_offers self answers).

Definition date_filter (no_extended_days : Z) (self : APIHandling)
  : py APIHandling :=
  answers ← for_each (fun (answers : list loc) (a : loc) =>
      let offer := heap self a in
      valid_to_date ← lift (subscript_key offer "valid_to");
      expired ← _is_expired self valid_to_date no_extended_days "";
      mret (if py_not expired then answers ++ [a] else answers))
    [] (offers self);
  mret (set_offers self answers).

(** Offers are rewritten in place: the loop threads the store.  The list
    of merchants is sorted where it is and then replaced by its first
    element, so only that element is kept. *)
Definition merchant_filter (self : APIHandling) : result APIHandling :=
  h ← for_each (fun (h : loc -> value) (a : loc) =>
      let offer := h a in
      ms ← subscript_key offer "merchants";
      n ← py_len ms;
      ms ← (if n >? 1
            then list_sort ms (fun x => subscript_key x "distance")
            else Ok ms);
      closest ← subscript_0 ms;
      offer ← set_item offer "merchants" closest;
      Ok (<[a := offer]> h))
    (heap self) (offers self);
  Ok (set_heap self h).

Definition closest_merchant_per_category_filter (self : APIHandling)
  : result APIHandling :=
  categoryName_offer_map ← _get_category_offers_map self;
  answers ← for_each (fun (answers : list loc) (entry : string * list loc) =>
      sorted ← sort_by_key (fun a =>
                  m ← subscript_key (heap self a) "merchants";
                  subscript_key m "distance") entry.2;
      first ← list_index sorted 0;
      Ok (answers ++ [first]))
    [] categoryName_offer_map;
  Ok (set_offers self answers).

Definition top_two_offers_filter (self : APIHandling) : result APIHandling :=
  let seen_id_set : list value := [] in
  let answers : list loc := [] in
  closest_merchant_offer ← _get_closest_merchant_offer self seen_id_set;
  '(answers, seen_id_set) ←
    match closest_merchant_offer with
    | Some a =>
        if truthy (heap self a) then
          id ← subscript_key (heap self a) "id";
          seen ← set_add id seen_id_set;
          Ok (answers ++ [a], seen)
        else Ok (answers, seen_id_set)
    | None => Ok (answers, seen_id_set)
    end;
  second_closest_merchant_offer ← _get_closest_merchant_offer self seen_id_set;
  answers ←
    match second_closest_merchant_offer with
    | Some b =>
        if truthy (heap self b) then
          (* the id added again is the first offer's *)
          id ← (if closest_merchant_offer is Some a
                then subscript_key (heap self a) "id"
                else Raise TypeError);
          _ ← set_add id seen_id_set;
          Ok (answers ++ [b])
        else Ok answers
    | None => Ok answers
    end;
  Ok (set_offers self answers).

Definition get_offers (self : APIHandling) : list value := working_set self.

(** * Vocabulary of the properties *)

(** Projections, well-formedness conditions, loop invariants and sample
    data used to state and prove the properties below. *)

(** ** Dates *)

(** A non-empty string of decimal digits: what [int] converts. *)
Definition digit_field (s : string) : bool :=
  negb (String.eqb s "") && all_chars is_digit s.

(** A digit field that [int] converts: of at most [int_max_str_digits]
    digits. *)
Definition short_field (s : string) : bool :=
  digit_field s && (str_len s <=? int_max_str_digits).

(** The three strings converted are always the first three fields, in
    some order; this is the order chosen. *)
Definition field_order (f0 f1 f2 : string) : string * string * string :=
  if str_len f2 =? 4 then (f2, f0, f1)
  else if str_len f1 =? 4 then (f1, f0, f2)
  else (f0, f1, f2).

(** "Date a is after date b": the comparison on (year, month, day), year
    first, then month, then day. *)
Definition is_after (a b : date) : bool :=
  let '(ya, ma, da) := a in
  let '(yb, mb, db) := b in
  (ya >? yb) || ((ya =? yb) && ((ma >? mb) || ((ma =? mb) && (da >? db)))).

(** ** Fields of an offer *)

(** The fields the filters read, as partial projections of an offer. *)
Definition offer_category (offer : value) : option string :=
  match offer with
  | VDict d =>
      match d !! "category" with
      | Some c => if _get_category_enum c is Ok name then Some name else None
      | None => None
      end
  | _ => None
  end.

Definition offer_id (offer : value) : option value :=
  match offer with
  | VDict d => d !! "id"
  | _ => None
  end.

Definition merchant_distance (merchant : value) : option Qc :=
  match merchant with
  | VDict d => if d !! "distance" is Some x then as_number x else None
  | _ => None
  end.

(** Distance of the single merchant record of an offer. *)
Definition offer_distance (offer : value) : option Qc :=
  match offer with
  | VDict d => if d !! "merchants" is Some m then merchant_distance m else None
  | _ => None
  end.

Definition offer_valid_to (offer : value) : option date :=
  match offer with
  | VDict d =>
      match d !! "valid_to" with
      | Some (VStr s) =>
          if _get_year_month_day_from_str s is Ok dt then Some dt else None
      | _ => None
      end
  | _ => None
  end.

Definition merchant_list (offer : value) : option (list value) :=
  match offer with
  | VDict d => if d !! "merchants" is Some (VList ms) then Some ms else None
  | _ => None
  end.

Definition category_of (self : APIHandling) (a : loc) : string :=
  default EmptyString (offer_category (heap self a)).

Definition distance_of (self : APIHandling) (a : loc) : Qc :=
  default 0%Qc (offer_distance (heap self a)).

Definition id_of (self : APIHandling) (a : loc) : value :=
  default VNone (offer_id (heap self a)).

(** [x <= y] on numbers: not [y < x]. *)
Definition number_le (x y : number) : Prop := number_ltb y x = false.

(** Both distances are known and the first is at most the second. *)
Definition closer_or_equal (x y : option Qc) : Prop :=
  exists p q, x = Some p /\ y = Some q /\ (p <= q)%Qc.

(** ** Well-formed offers *)

(** The offer carries a non-empty list of merchant records, each with a
    numeric distance, which is finite ([as_number]). *)
Definition has_merchant_list (offer : value) : bool :=
  match merchant_list offer with
  | Some (m :: ms) =>
      forallb (fun m => if merchant_distance m is Some _ then true else false)
        (m :: ms)
  | _ => false
  end.

(** The offer has an id that can be put in a set, and a single merchant
    record with a numeric distance, which is finite ([as_number]). *)
Definition single_merchant_offer (offer : value) : bool :=
  match offer_id offer, offer_distance offer with
  | Some i, Some _ => hashable i
  | _, _ => false
  end.


(** ** Loops of the filters *)

(** Whether [date_filter] keeps an offer, given the last day of the stay. *)
Definition not_expired (self : APIHandling) (last : date) (a : loc) : bool :=
  if offer_valid_to (heap self a) is Some expiry
  then negb (is_after last expiry)
  else false.

(** The offers of [l] whose category name, given by [cat], is [name]. *)
Definition group (cat : loc -> string) (name : string) (l : list loc)
  : list loc :=
  List.filter (fun a => String.eqb name (cat a)) l.

(** The map after the loop of [_get_category_offers_map] has run over [l]. *)
Definition build (cat : loc -> string) (l : list loc) : category_map :=
  fold_left (fun m a => map_append (cat a) a m) l [].

(** Invariant of that loop: keys are distinct, each key holds the
    non-empty list of the offers of that category, in order, and every
    category met has a key. *)
Definition map_inv (cat : loc -> string) (l : list loc) (m : category_map)
  : Prop :=
  List.NoDup (map fst m) /\
  Forall (fun e => e.2 = group cat e.1 l /\ e.2 <> []) m /\
  (forall a, In a l -> In (cat a) (map fst m)).

(** What one iteration of [merchant_filter] does to the offer it visits. *)
Definition collapse_offer (offer : value) : result value :=
  ms ← subscript_key offer "merchants";
  n ← py_len ms;
  ms ← (if n >? 1
        then list_sort ms (fun x => subscript_key x "distance")
        else Ok ms);
  closest ← subscript_0 ms;
  set_item offer "merchants" closest.

(** [offer'] is [offer] with its merchants replaced by one of them, a
    record whose distance is the least. *)
Definition collapsed (offer offer' : value) : Prop :=
  exists d ms m,
    offer = VDict d /\ d !! "merchants" = Some (VList ms) /\
    In m ms /\ is_Some (merchant_distance m) /\
    (forall m' q q', In m' ms -> merchant_distance m = Some q ->
       merchant_distance m' = Some q' -> (q <= q')%Qc) /\
    offer' = VDict (<["merchants" := m]> d).

Definition seen_in (self : APIHandling) (seen_offers_set : list value) (a : loc)
  : bool :=
  existsb (py_eqb (id_of self a)) seen_offers_set.

(** One iteration of the loop of [_get_closest_merchant_offer]. *)
Definition scan_step (k : loc -> Qc) (seen : loc -> bool)
    (acc : number * option loc) (a : loc) : number * option loc :=
  if seen a then acc
  else if number_ltb (Finite (k a)) acc.1
       then (Finite (k a), Some a)
       else acc.

(** Invariant of that loop: nothing unseen was met so far, or the offer
    held is unseen and the closest of the unseen offers met so far. *)
Definition scan_inv (k : loc -> Qc) (seen : loc -> bool)
    (l : list loc) (acc : number * option loc) : Prop :=
  (acc = (math_inf, None) /\ forall a, In a l -> seen a = true) \/
  (exists a, acc = (Finite (k a), Some a) /\ In a l /\ seen a = false /\
             forall b, In b l -> seen b = false -> (k a <= k b)%Qc).

(** ** Sample data *)

(** A field of 4301 digits, one more than [int] converts. *)
Definition long_field : string :=
  string_of_list_ascii (repeat "1"%char 4301).

(** A response of status 404 whose body is the JSON string "Not found". *)
Definition not_found : response :=
  {| status_code := 404; json := Ok (VStr "Not found") |}.

Definition mk_merchant (id : Z) (name : string) (distance : Q) : value :=
  VDict (<["id" := VInt id]> (<["name" := VStr name]>
        (<["distance" := VNum (Finite (Q2Qc distance))]> ∅))).

Definition mk_offer (id category : Z) (valid_to : string) (merchants : value)
  : value :=
  VDict (<["id" := VInt id]> (<["category" := VInt category]>
        (<["valid_to" := VStr valid_to]> (<["merchants" := merchants]> ∅)))).

Definition sample_offers : list value :=
  [ mk_offer 1 1 "2020-02-01"
      (VList [mk_merchant 1 "Offer1 Merchant1" (5 # 10)]);
    mk_offer 2 2 "2019-12-28"
      (VList [mk_merchant 2 "Offer2 Merchant1" (13 # 10)]);
    mk_offer 3 1 "2020-01-01"
      (VList [mk_merchant 3 "Offer3 Merchant1" (8 # 10);
              mk_merchant 4 "Offer3 Merchant2" (3 # 10)]);
    mk_offer 4 4 "2020-05-01"
      (VList [mk_merchant 5 "Offer4 Merchant1" (12 # 10)]) ].

Definition sample : APIHandling := load_offers "2019-12-25" sample_offers.

Definition sample_collapsed_offers : list value :=
  [ mk_offer 1 1 "2020-02-01" (mk_merchant 1 "Offer1 Merchant1" (5 # 10));
    mk_offer 2 2 "2019-12-28" (mk_merchant 2 "Offer2 Merchant1" (13 # 10));
    mk_offer 3 1 "2020-01-01" (mk_merchant 4 "Offer3 Merchant2" (3 # 10));
    mk_offer 4 4 "2020-05-01" (mk_merchant 5 "Offer4 Merchant1" (12 # 10)) ].

Definition sample_collapsed : APIHandling :=
  load_offers "2019-12-25" sample_collapsed_offers.



(** * Vocabulary of the further properties *)

(** ** Calendar *)

(** Number of days of a month, February having 29 days in the years
    divisible by 4. *)
Definition days_in_month (year month : Z) : Z :=
  if month =? 2 then (if year mod 4 =? 0 then 29 else 28)
  else if (month =? 4) || (month =? 6) || (month =? 9) || (month =? 11)
       then 30
       else 31.

(** The triple is a day of that calendar. *)
Definition valid_ymd (dt : date) : bool :=
  let '(year, month, day) := dt in
  (1 <=? month) && (month <=? 12) &&
  (1 <=? day) && (day <=? days_in_month year month).

(** ** Selection by category *)

(** The characters whose capital form has a code below 256: all but the
    micro sign (181) and the y with diaeresis (255). *)
Definition upper_in_range (c : ascii) : bool :=
  negb ((char_code c =? 181) || (char_code c =? 255)).

(** What [category_filter] keeps: for each requested name in turn, the
    offers of that category, in their order in the working set. *)
Definition selected (self : APIHandling) (desired_categories : list string)
  : list loc :=
  flat_map (fun name => group (category_of self) (str_upper name) (offers self))
    desired_categories.

(** ** Shape of the merchants entry *)

(** The merchants entry of the offer is a record (a JSON object). *)
Definition merchants_is_record (offer : value) : bool :=
  match offer with
  | VDict d => if d !! "merchants" is Some (VDict _) then true else false
  | _ => false
  end.

(** The least of the distances of the merchants listed by the offer. *)
Definition least_distance (offer : value) (q : Qc) : Prop :=
  exists ms m,
    merchant_list offer = Some ms /\ In m ms /\ merchant_distance m = Some q /\
    forall m' q', In m' ms -> merchant_distance m' = Some q' -> (q <= q')%Qc.

(** ** Ties *)

(** Sharper invariant of the loop of [_get_closest_merchant_offer]: the
    offer held is the first of the closest unseen offers met so far. *)
Definition scan_first (k : loc -> Qc) (seen : loc -> bool)
    (l : list loc) (acc : number * option loc) : Prop :=
  (acc = (math_inf, None) /\ forall a, In a l -> seen a = true) \/
  (exists a l1 l2,
     acc = (Finite (k a), Some a) /\ l = l1 ++ a :: l2 /\ seen a = false /\
     (forall b, In b l1 -> seen b = false -> (k a < k b)%Qc) /\
     (forall b, In b l2 -> seen b = false -> (k a <= k b)%Qc)).

(** Both distances are known and the first is less than the second. *)
Definition strictly_closer (x y : option Qc) : Prop :=
  exists p q, x = Some p /\ y = Some q /\ (p < q)%Qc.

Definition merchant_distance_of (m : value) : Qc :=
  default 0%Qc (merchant_distance m).

(** * Properties *)

(** The four offers of the sample working sets, one goal each. *)
Ltac each_sample_offer := intros ? [<-|[<-|[<-|[<-|[]]]]].

(** ** The source's own assertions *)

Example test_is_valid_date :
  map (fun s => _is_valid_date s true)
      ["";  "abc-12-2023"; "30-02-2024"; "01-01-2023"; "02-22-2023";
       "9-31-2024"; "04-31-2024"; "1-31-2023"; "4-30-2023";
       "02-30-2024"; "02-29-2023"; "2-28-2023"; "2-29-2024"]%string
  = map mret
      [false; false; false; true; true;
       false; false; true; true;
       false; false; true; true].
Proof. reflexivity. Qed.

(** ** Monad plumbing *)

Lemma result_bind_Ok {A B} (r : result A) (f : A -> result B) (b : B) :
  r ≫= f = Ok b -> exists a, r = Ok a /\ f a = Ok b.
Proof. destruct r as [a|e]; [eauto | discriminate]. Qed.

Lemma py_bind_lift_Ok {A B} (a : A) (f : A -> py B) :
  lift (Ok a) ≫= f = f a.
Proof. unfold lift, mbind, py_bind. by destruct (f a). Qed.

Lemma py_bind_lift_Raise {A B} (e : exn) (f : A -> py B) :
  lift (Raise e) ≫= f = ([], Raise e).
Proof. reflexivity. Qed.

Lemma py_bind_mret {A B} (a : A) (f : A -> py B) :
  mret a ≫= f = f a.
Proof. unfold mret, py_ret, mbind, py_bind. by destruct (f a). Qed.

(** ** Fields of a date string *)

Lemma is_digit_plain c :
  is_digit c = true ->
  is_space c = false /\ is_underscore c = false /\
  Ascii.eqb c "+" = false /\ Ascii.eqb c "-" = false.
Proof. destruct c as [[] [] [] [] [] [] [] []]; by vm_compute. Qed.

Lemma lstrip_digits s : all_chars is_digit s = true -> lstrip s = s.
Proof.
  unfold all_chars. destruct s as [|c s]; simpl; [done|].
  intros [Hc _]%andb_prop. by destruct (is_digit_plain c Hc) as (-> & _).
Qed.

Lemma rstrip_digits s : all_chars is_digit s = true -> rstrip s = s.
Proof.
  unfold all_chars. induction s as [|c s IH]; simpl; [done|].
  intros [Hc Hs]%andb_prop. rewrite (IH Hs).
  destruct (is_digit_plain c Hc) as (-> & _). by destruct s.
Qed.

Lemma int_literal_digits s after_digit :
  all_chars is_digit s = true ->
  int_literal after_digit s = after_digit || negb (String.eqb s "").
Proof.
  unfold all_chars. revert after_digit.
  induction s as [|c s IH]; intros after_digit; simpl.
  - by rewrite orb_false_r.
  - intros [Hc Hs]%andb_prop. rewrite Hc, (IH _ Hs). by rewrite orb_true_r.
Qed.

Lemma digits_of_digits s : all_chars is_digit s = true -> digits_of s = s.
Proof.
  unfold all_chars. induction s as [|c s IH]; simpl; [done|].
  intros [Hc Hs]%andb_prop. by rewrite Hc, (IH Hs).
Qed.

Lemma digits_of_all s : all_chars is_digit (digits_of s) = true.
Proof.
  unfold all_chars. induction s as [|c s IH]; simpl; [done|].
  destruct (is_digit c) eqn:Hc; simpl; [by rewrite Hc|done].
Qed.

(** On a string of digits [int] fails only for the empty string and for
    more than [int_max_str_digits] digits. *)
Lemma int_of_str_digits s :
  all_chars is_digit s = true ->
  int_of_str s =
    if negb (String.eqb s "") && (str_len s <=? int_max_str_digits)
    then Ok (decimal_value s) else Raise ValueError.
Proof.
  intros Hs. unfold int_of_str.
  rewrite (lstrip_digits s Hs), (rstrip_digits s Hs).
  destruct s as [|c s']; [done|].
  assert (Hc : is_digit c = true).
  { unfold all_chars in Hs. simpl in Hs. by apply andb_prop in Hs as [? _]. }
  destruct (is_digit_plain c Hc) as (_ & _ & Hplus & Hminus).
  cbv beta iota zeta. rewrite Hplus, Hminus. cbv beta iota zeta.
  by rewrite (int_literal_digits _ false Hs), (digits_of_digits _ Hs).
Qed.

Lemma int_of_str_short_field s :
  short_field s = true -> int_of_str s = Ok (decimal_value s).
Proof.
  unfold short_field, digit_field.
  intros [[Hne Hs]%andb_prop Hlen]%andb_prop.
  by rewrite (int_of_str_digits s Hs), Hne, Hlen.
Qed.

Lemma int_of_str_digits_Ok s z :
  all_chars is_digit s = true ->
  int_of_str s = Ok z -> short_field s = true /\ z = decimal_value s.
Proof.
  intros Hs. rewrite (int_of_str_digits s Hs). unfold short_field, digit_field.
  rewrite Hs, andb_true_r.
  destruct (negb (String.eqb s "") && (str_len s <=? int_max_str_digits));
    [|discriminate].
  by intros [= <-].
Qed.

Lemma lstrip_all p s : all_chars p s = true -> all_chars p (lstrip s) = true.
Proof.
  unfold all_chars. induction s as [|c s IH]; simpl; [done|].
  intros [Hc Hs]%andb_prop. destruct (is_space c); [auto|].
  simpl. by rewrite Hc, Hs.
Qed.

Lemma rstrip_all p s : all_chars p s = true -> all_chars p (rstrip s) = true.
Proof.
  unfold all_chars. induction s as [|c s IH]; simpl; [done|].
  intros [Hc Hs]%andb_prop. specialize (IH Hs).
  destruct (rstrip s) as [|c' t].
  - destruct (is_space c); simpl; [done|]. by rewrite Hc.
  - simpl in *. by rewrite Hc, IH.
Qed.

Lemma decimal_value_from_nonneg s acc :
  all_chars is_digit s = true -> 0 <= acc -> 0 <= decimal_value_from acc s.
Proof.
  unfold all_chars. revert acc. induction s as [|c s IH]; intros acc; simpl.
  - done.
  - intros [Hc Hs]%andb_prop Hacc. apply IH; [done|].
    unfold is_digit in Hc. apply andb_prop in Hc as [Hc%Z.leb_le _]. lia.
Qed.

(** The only way to a negative number is a '-' sign. *)
Lemma int_of_str_nonneg s z :
  all_chars (fun c => negb (is_dash c)) s = true ->
  int_of_str s = Ok z -> 0 <= z.
Proof.
  intros Hs%lstrip_all%rstrip_all. unfold int_of_str.
  destruct (rstrip (lstrip s)) as [|c t] eqn:E.
  - discriminate.
  - unfold all_chars in Hs. simpl in Hs.
    apply andb_prop in Hs as [Hc%negb_true_iff _]. unfold is_dash in Hc.
    rewrite Hc.
    destruct (Ascii.eqb c "+"); cbv beta iota zeta;
      (destruct (int_literal _ _ && _); [|discriminate]);
      intros [= <-]; unfold decimal_value;
      (apply decimal_value_from_nonneg;
       [first [exact (digits_of_all t) | exact (digits_of_all (String c t))]
       | lia]).
Qed.

Lemma is_digit_not_dash c : is_digit c = true -> is_dash c = false.
Proof.
  unfold is_dash. destruct (Ascii.eqb_spec c "-") as [->|]; [|done].
  vm_compute. discriminate.
Qed.

Lemma str_split_dash_not_nil s : str_split_dash s <> [].
Proof.
  destruct s as [|c s]; simpl; [done|].
  destruct (is_dash c); [done|]. by destruct (str_split_dash s).
Qed.

Lemma str_split_dash_field a rest :
  all_chars is_digit a = true ->
  str_split_dash (a +:+ String "-" rest) = a :: str_split_dash rest.
Proof.
  unfold all_chars. induction a as [|c a IH]; simpl; [done|].
  intros [Hc Ha]%andb_prop. rewrite (is_digit_not_dash c Hc).
  by rewrite (IH Ha).
Qed.

Lemma str_split_dash_last a :
  all_chars is_digit a = true -> str_split_dash a = [a].
Proof.
  unfold all_chars. induction a as [|c a IH]; simpl; [done|].
  intros [Hc Ha]%andb_prop. rewrite (is_digit_not_dash c Hc).
  by rewrite (IH Ha).
Qed.

Lemma digit_field_all s : digit_field s = true -> all_chars is_digit s = true.
Proof. unfold digit_field. by intros [_ ?]%andb_prop. Qed.

Lemma short_field_digit s : short_field s = true -> digit_field s = true.
Proof. unfold short_field. by intros [? _]%andb_prop. Qed.

(** No field holds a '-', and the fields of a string of digits and '-'
    hold digits only. *)
Lemma str_split_dash_no_dash s :
  Forall (fun f => all_chars (fun c => negb (is_dash c)) f = true)
    (str_split_dash s).
Proof.
  unfold all_chars. induction s as [|c s IH]; simpl.
  - by constructor.
  - destruct (is_dash c) eqn:Hc; [by constructor|].
    destruct (str_split_dash s) as [|f fs]; [by repeat constructor; simpl; rewrite Hc|].
    apply List.Forall_cons_iff in IH as [Hf Hfs].
    constructor; [|done]. simpl. by rewrite Hc, Hf.
Qed.

Lemma str_split_dash_digits s :
  all_chars date_char s = true ->
  Forall (fun f => all_chars is_digit f = true) (str_split_dash s).
Proof.
  unfold all_chars. induction s as [|c s IH]; simpl.
  - by constructor.
  - intros [Hc Hs]%andb_prop. specialize (IH Hs).
    destruct (is_dash c) eqn:Hd; [by constructor|].
    unfold date_char in Hc. rewrite Hd, orb_false_r in Hc.
    destruct (str_split_dash s) as [|f fs]; [by repeat constructor; simpl; rewrite Hc|].
    apply List.Forall_cons_iff in IH as [Hf Hfs].
    constructor; [|done]. simpl. by rewrite Hc, Hf.
Qed.

Lemma str_split_dash_three a b c :
  digit_field a = true -> digit_field b = true -> digit_field c = true ->
  str_split_dash (a +:+ "-" +:+ b +:+ "-" +:+ c) = [a; b; c].
Proof.
  intros Ha Hb Hc.
  change (str_split_dash (a +:+ String "-" (b +:+ String "-" c)) = [a; b; c]).
  rewrite (str_split_dash_field a), (str_split_dash_field b),
    (str_split_dash_last c); auto using digit_field_all.
Qed.

Lemma parse_fields s f0 f1 f2 rest :
  str_split_dash s = f0 :: f1 :: f2 :: rest ->
  _get_year_month_day_from_str s =
    let '(ys, ms, ds) := field_order f0 f1 f2 in
    cur_year ← int_of_str ys;
    cur_month ← int_of_str ms;
    cur_day ← int_of_str ds;
    Ok (cur_year, cur_month, cur_day).
Proof.
  intros Hs. unfold _get_year_month_day_from_str, field_order. rewrite Hs.
  simpl. by destruct (str_len f1 =? 4), (str_len f2 =? 4).
Qed.

Lemma parse_too_short s :
  (forall f0 f1 f2 rest, str_split_dash s <> f0 :: f1 :: f2 :: rest) ->
  _get_year_month_day_from_str s = Raise IndexError.
Proof.
  intros Hs. unfold _get_year_month_day_from_str.
  destruct (str_split_dash s) as [|f0 [|f1 [|f2 rest]]] eqn:E; try done.
  by destruct (Hs f0 f1 f2 rest).
Qed.

Lemma parse_Ok_iff s :
  all_chars date_char s = true ->
  (exists dt, _get_year_month_day_from_str s = Ok dt) <->
  exists f0 f1 f2 rest,
    str_split_dash s = f0 :: f1 :: f2 :: rest /\
    short_field f0 = true /\ short_field f1 = true /\ short_field f2 = true.
Proof.
  intros Hch. split.
  - intros [dt Hdt].
    pose proof (str_split_dash_digits s Hch) as Hdig.
    destruct (str_split_dash s) as [|f0 [|f1 [|f2 rest]]] eqn:E;
      try (unfold _get_year_month_day_from_str in Hdt; rewrite E in Hdt;
           discriminate).
    apply List.Forall_cons_iff in Hdig as [H0 Hdig].
    apply List.Forall_cons_iff in Hdig as [H1 Hdig].
    apply List.Forall_cons_iff in Hdig as [H2 _].
    exists f0, f1, f2, rest. split; [done|].
    rewrite (parse_fields _ _ _ _ _ E) in Hdt. unfold field_order in Hdt.
    destruct (str_len f2 =? 4), (str_len f1 =? 4);
      apply result_bind_Ok in Hdt as (y & Hy & Hdt);
      apply result_bind_Ok in Hdt as (m & Hm & Hdt);
      apply result_bind_Ok in Hdt as (d & Hd & Hdt);
      apply int_of_str_digits_Ok in Hy as [Hy _]; try done;
      apply int_of_str_digits_Ok in Hm as [Hm _]; try done;
      apply int_of_str_digits_Ok in Hd as [Hd _]; done.
  - intros (f0 & f1 & f2 & rest & E & H0 & H1 & H2).
    rewrite (parse_fields _ _ _ _ _ E). unfold field_order.
    destruct (str_len f2 =? 4), (str_len f1 =? 4);
      rewrite ?(int_of_str_short_field _ H0), ?(int_of_str_short_field _ H1),
        ?(int_of_str_short_field _ H2); simpl; eauto.
Qed.

(** ** Validation and day arithmetic *)

Lemma get_no_days_in_Ok year month :
  1 <= month <= 12 -> exists dim, _get_no_days_in year month = Ok dim /\ 28 <= dim <= 31.
Proof.
  intros Hm. unfold _get_no_days_in.
  replace ((1 <=? month) && (month <=? 12)) with true
    by (symmetry; apply andb_true_intro; split; apply Z.leb_le; lia).
  simpl. destruct (month =? 2); [destruct (is_leap_year year)|destruct (_ || _)];
    eexists; (split; [reflexivity|lia]).
Qed.

(** Past the two early exits, the validator is a function of the parsed
    triple. *)
Lemma is_valid_date_unfold s t :
  String.eqb s "" = false -> all_chars date_char s = true ->
  _is_valid_date s t =
    '(year, month, day) ← lift (_get_year_month_day_from_str s);
    if negb ((1 <=? month) && (month <=? 12)) then
      _ ← (if negb t then print (MsgInvalidMonth year month day) else mret tt);
      mret false
    else
      LAST_DAY ← lift (_get_no_days_in year month);
      if negb ((1 <=? day) && (day <=? LAST_DAY)) then
        _ ← (if negb t then print (MsgInvalidDay year month day) else mret tt);
        mret false
      else mret true.
Proof. unfold _is_valid_date. by intros -> ->. Qed.

Lemma is_valid_date_true_inv s t out :
  _is_valid_date s t = (out, Ok true) ->
  exists y m d dim,
    _get_year_month_day_from_str s = Ok (y, m, d) /\
    _get_no_days_in y m = Ok dim /\
    1 <= m <= 12 /\ 1 <= d <= dim.
Proof.
  unfold _is_valid_date.
  destruct (String.eqb s ""); [discriminate|].
  destruct (negb (all_chars date_char s)); [discriminate|].
  destruct (_get_year_month_day_from_str s) as [[[y m] d]|e]; [|discriminate].
  rewrite py_bind_lift_Ok.
  destruct ((1 <=? m) && (m <=? 12)) eqn:Hm; simpl negb; cbv iota.
  2:{ destruct (negb t); discriminate. }
  destruct (_get_no_days_in y m) as [dim|e] eqn:Hdim; [|discriminate].
  rewrite py_bind_lift_Ok.
  destruct ((1 <=? d) && (d <=? dim)) eqn:Hd; simpl negb; cbv iota.
  2:{ destruct (negb t); discriminate. }
  intros _. exists y, m, d, dim.
  apply andb_prop in Hm as [?%Z.leb_le ?%Z.leb_le].
  apply andb_prop in Hd as [?%Z.leb_le ?%Z.leb_le].
  repeat split; done || lia.
Qed.

Lemma is_valid_date_returns s t :
  String.eqb s "" = false -> all_chars date_char s = true ->
  (exists out b, _is_valid_date s t = (out, Ok b)) <->
  (exists dt, _get_year_month_day_from_str s = Ok dt).
Proof.
  intros Hne Hch. rewrite (is_valid_date_unfold s t Hne Hch). split.
  - intros (out & b & H).
    destruct (_get_year_month_day_from_str s) as [dt|e]; [eauto|discriminate].
  - intros [[[y m] d] ->]. rewrite py_bind_lift_Ok.
    destruct ((1 <=? m) && (m <=? 12)) eqn:Hm; simpl negb; cbv iota.
    2:{ destruct (negb t); eexists _, _; reflexivity. }
    destruct (get_no_days_in_Ok y m) as (dim & -> & _); [lia|].
    rewrite py_bind_lift_Ok.
    destruct (negb _); [destruct (negb t)|]; eexists _, _; reflexivity.
Qed.

(** C4, as stated, fails: a month field of 4301 digits between a
    four-character year and a day is a digit field, yet [int] refuses it and
    the parsing raises [ValueError]. *)
Lemma parse_date_long_field :
  digit_field "2023" = true /\ digit_field long_field = true /\
  digit_field "1" = true /\
  str_len "2023" = 4 /\ str_len long_field <> 4 /\ str_len "1" <> 4 /\
  _get_year_month_day_from_str ("2023" +:+ "-" +:+ long_field +:+ "-" +:+ "1")
  = Raise ValueError.
Proof. repeat split; by vm_compute. Qed.

(** C4, amended. A date string made of three non-empty digit fields
    separated by '-', each of at most 4300 digits, in which the year field
    alone has exactly four characters, is parsed to (year, month, day): with
    the year first, the fields are read as year-month-day; with the year
    last, as month-day-year. The month and the day keep their left-to-right
    order in both cases. *)
Theorem parse_date_four_char_year (a b c : string) :
  short_field a = true -> short_field b = true -> short_field c = true ->
  (str_len a = 4 -> str_len b <> 4 -> str_len c <> 4 ->
   _get_year_month_day_from_str (a +:+ "-" +:+ b +:+ "-" +:+ c)
   = Ok (decimal_value a, decimal_value b, decimal_value c)) /\
  (str_len c = 4 -> str_len a <> 4 -> str_len b <> 4 ->
   _get_year_month_day_from_str (a +:+ "-" +:+ b +:+ "-" +:+ c)
   = Ok (decimal_value c, decimal_value a, decimal_value b)).
Proof.
  intros Ha Hb Hc.
  pose proof (str_split_dash_three a b c (short_field_digit a Ha)
                (short_field_digit b Hb) (short_field_digit c Hc)) as Hs.
  split; intros Hy Hm Hd;
    rewrite (parse_fields _ _ _ _ _ Hs); unfold field_order.
  - apply Z.eqb_neq in Hm, Hd. rewrite Hm, Hd.
    by rewrite !int_of_str_short_field.
  - apply Z.eqb_eq in Hy. rewrite Hy.
    by rewrite !int_of_str_short_field.
Qed.

Lemma parse_date_four_char_year_witness :
  _get_year_month_day_from_str "2023-04-30" = Ok (2023, 4, 30) /\
  _get_year_month_day_from_str "4-30-2023" = Ok (2023, 4, 30).
Proof.
  split.
  - apply (proj1 (parse_date_four_char_year "2023" "04" "30"
                    eq_refl eq_refl eq_refl)); vm_compute; congruence.
  - apply (proj2 (parse_date_four_char_year "4" "30" "2023"
                    eq_refl eq_refl eq_refl)); vm_compute; congruence.
Defined.

Lemma get_last_stay_date_in_range (s : string) (n y m d : Z) :
  _is_valid_date s true = mret true ->
  _get_year_month_day_from_str s = Ok (y, m, d) ->
  n <= 31 ->
  exists dim,
    _get_no_days_in y m = Ok dim /\
    _get_last_stay_date s n =
      mret (if d + n <=? dim then (y, m, d + n)
            else if m + 1 =? 13 then (y + 1, 1, d + n - dim)
            else (y, m + 1, d + n - dim)).
Proof.
  intros Hv Hp Hn.
  destruct (is_valid_date_true_inv _ _ _ Hv)
    as (y' & m' & d' & dim & Hp' & Hdim & Hm & Hd).
  rewrite Hp in Hp'. injection Hp' as <- <- <-.
  exists dim. split; [done|].
  unfold _get_last_stay_date. rewrite Hv, py_bind_mret. simpl assert.
  rewrite py_bind_lift_Ok.
  replace (n >? 31) with false by lia.
  rewrite Hp, py_bind_lift_Ok, Hdim, py_bind_lift_Ok.
  destruct (Z.leb_spec (d + n) dim).
  - by replace (d + n >? dim) with false by lia.
  - replace (d + n >? dim) with true by lia.
    destruct (Z.eqb_spec (m + 1) 13).
    + by replace (m + 1 >? 12) with true by lia.
    + by replace (m + 1 >? 12) with false by lia.
Qed.



(** C6. For a valid date string and n > 31, [_get_last_stay_date] does not
    raise: it prints its message and returns (-1, -1, -1). *)
Theorem get_last_stay_date_over_31 (s : string) (n : Z) :
  _is_valid_date s true = mret true ->
  n > 31 ->
  _get_last_stay_date s n = ([MsgAtMost31], Ok (-1, -1, -1)).
Proof.
  intros Hv Hn. unfold _get_last_stay_date.
  rewrite Hv, py_bind_mret. simpl assert. rewrite py_bind_lift_Ok.
  by replace (n >? 31) with true by lia.
Qed.

Lemma get_last_stay_date_over_31_witness :
  _get_last_stay_date "4-30-2023" 32 = ([MsgAtMost31], Ok (-1, -1, -1)).
Proof. apply get_last_stay_date_over_31; [reflexivity | lia]. Defined.

(** C10. [_is_valid_date] raises on some non-empty strings of digits and
    '-': [IndexError] on "1-2" (fewer than three fields) and [ValueError] on
    "1--2023" (an empty field). On a non-empty string of digits and '-' it
    returns a boolean exactly when the string splits on '-' into at least
    three fields of which the first three are non-empty digit fields, of at
    most 4300 digits each (beyond which [int] raises [ValueError]). *)
Theorem is_valid_date_partial :
  (forall t, _is_valid_date "1-2" t = ([], Raise IndexError)) /\
  (forall t, _is_valid_date "1--2023" t = ([], Raise ValueError)) /\
  (forall s t,
     String.eqb s "" = false -> all_chars date_char s = true ->
     (exists out b, _is_valid_date s t = (out, Ok b)) <->
     (exists f0 f1 f2 rest,
        str_split_dash s = f0 :: f1 :: f2 :: rest /\
        digit_field f0 = true /\ digit_field f1 = true /\
        digit_field f2 = true /\
        str_len f0 <= 4300 /\ str_len f1 <= 4300 /\ str_len f2 <= 4300)).
Proof.
  split; [by intros []|]. split; [by intros []|].
  intros s t Hne Hch.
  rewrite (is_valid_date_returns s t Hne Hch), (parse_Ok_iff s Hch).
  unfold short_field, int_max_str_digits.
  split; intros (f0 & f1 & f2 & rest & E & H); exists f0, f1, f2, rest;
    (split; [done|]); rewrite !andb_true_iff, !Z.leb_le in *; tauto.
Qed.

Lemma is_valid_date_partial_witness :
  exists out b, _is_valid_date "31-31-2023" false = (out, Ok b).
Proof.
  apply (proj2 (proj2 is_valid_date_partial) "31-31-2023" false
           eq_refl eq_refl).
  exists "31"%string, "31"%string, "2023"%string, []. by vm_compute.
Defined.

(** ** Construction *)

Lemma py_bind_Ok {A B} (m : py A) (f : A -> py B) out (b : B) :
  m ≫= f = (out, Ok b) ->
  exists o1 a o2, m = (o1, Ok a) /\ f a = (o2, Ok b) /\ out = o1 ++ o2.
Proof.
  destruct m as [o1 [a|e]]; unfold mbind, py_bind; [|discriminate].
  destruct (f a) as [o2 r] eqn:E. intros [= <- ->]. by exists o1, a, o2.
Qed.

Lemma is_valid_response_true r :
  _is_valid_response r =
    (if status_code r =? 200 then [] else [MsgFixUrl (status_code r)], Ok true).
Proof. unfold _is_valid_response. by destruct (status_code r =? 200). Qed.

Lemma validate_input_eq r s :
  _validate_input r s =
    let '(out, v) := _is_valid_date s false in
    ((if status_code r =? 200 then [] else [MsgFixUrl (status_code r)]) ++ out, v).
Proof.
  unfold _validate_input. rewrite is_valid_response_true.
  unfold mbind, py_bind. by destruct (_is_valid_date s false).
Qed.

(** C8, as stated, fails: with a valid check-in date, construction from a
    response whose body has no "offers" entry raises [AssertionError]. *)
Lemma construction_not_only_date :
  ~ ((exists out self, __init__ not_found "1-1-2023" = (out, Ok self)) <->
     _is_valid_date "1-1-2023" false = mret true).
Proof.
  intros [_ H]. destruct (H eq_refl) as (out & self & Hinit).
  vm_compute in Hinit. discriminate.
Qed.

(** C8, amended. [_is_valid_response] returns [True] for every response,
    whatever the status code (a status other than 200 is only printed), so
    the input validation passes exactly when the check-in date string is
    valid; construction succeeds exactly when, in addition, the body is
    JSON in which the "offers" entry can be read. *)
Theorem construction_succeeds_iff (r : response) (s : string) :
  (exists out, _is_valid_response r = (out, Ok true)) /\
  ((exists out, _validate_input r s = (out, Ok true)) <->
   (exists out, _is_valid_date s false = (out, Ok true))) /\
  ((exists out os, __init__ r s = (out, Ok (os, s))) <->
   (exists out, _is_valid_date s false = (out, Ok true)) /\
   (exists os, _receive_offers r = Ok os)).
Proof.
  split; [rewrite is_valid_response_true; eauto|].
  assert (Hval : (exists out, _validate_input r s = (out, Ok true)) <->
                 (exists out, _is_valid_date s false = (out, Ok true))).
  { rewrite validate_input_eq.
    destruct (_is_valid_date s false) as [o v]. split.
    - intros [out [= _ ->]]. eauto.
    - intros [out [= _ ->]]. eauto. }
  split; [done|]. rewrite <- Hval. unfold __init__. split.
  - intros (out & os & H).
    apply py_bind_Ok in H as (o1 & v & o2 & Hv & H & _).
    destruct v; [|discriminate]. split; [eauto|].
    simpl assert in H. rewrite py_bind_lift_Ok in H.
    destruct (_receive_offers r) as [os'|e]; [eauto|discriminate].
  - intros [[out ->] [os ->]]. simpl. eauto.
Qed.

(** ** Loops *)

Lemma for_each_result_pure {A B} (body : B -> A -> result B) (g : B -> A -> B)
    (l : list A) (acc : B) :
  (forall acc x, In x l -> body acc x = Ok (g acc x)) ->
  for_each body acc l = Ok (fold_left g l acc).
Proof.
  revert acc. induction l as [|x l IH]; intros acc H; simpl; [done|].
  rewrite H by (by left). simpl. apply IH. intros; apply H; by right.
Qed.

Lemma for_each_py_pure {A B} (body : B -> A -> py B) (g : B -> A -> B)
    (l : list A) (acc : B) :
  (forall acc x, In x l -> body acc x = mret (g acc x)) ->
  for_each body acc l = mret (fold_left g l acc).
Proof.
  revert acc. induction l as [|x l IH]; intros acc H; simpl; [done|].
  rewrite H by (by left). rewrite py_bind_mret.
  apply IH. intros; apply H; by right.
Qed.

Lemma for_each_raises {A B} (body : B -> A -> result B) (e : exn)
    (l : list A) (acc : B) :
  (forall acc x, In x l ->
     body acc x = Raise e \/ exists acc', body acc x = Ok acc') ->
  (exists x, In x l /\ forall acc, body acc x = Raise e) ->
  for_each body acc l = Raise e.
Proof.
  revert acc. induction l as [|x l IH]; intros acc Hstep (y & Hy & Hraise).
  - destruct Hy.
  - simpl. destruct (Hstep acc x) as [->|[acc' Hacc']]; [by left|done|].
    rewrite Hacc'. simpl. apply IH.
    + intros; apply Hstep; by right.
    + destruct Hy as [->|Hy]; [|eauto].
      rewrite Hraise in Hacc'. discriminate.
Qed.

Lemma for_each_result_ext {A B} (body body' : B -> A -> result B)
    (l : list A) (acc : B) :
  (forall acc x, body acc x = body' acc x) ->
  for_each body acc l = for_each body' acc l.
Proof.
  intros H. revert acc. induction l as [|x l IH]; intros acc; simpl; [done|].
  rewrite H. destruct (body' acc x); simpl; [apply IH|done].
Qed.

Lemma fold_left_keep {A} (p : A -> bool) (l : list A) (acc : list A) :
  fold_left (fun ans a => if p a then ans ++ [a] else ans) l acc
  = acc ++ List.filter p l.
Proof.
  revert acc. induction l as [|x l IH]; intros acc; simpl.
  - by rewrite app_nil_r.
  - rewrite IH. destruct (p x); [|done]. by rewrite <- app_assoc.
Qed.

(** ** Reading an offer *)

Lemma offer_category_read offer name :
  offer_category offer = Some name ->
  (has ← py_contains "category" offer;
   _ ← assert has;
   category_id ← subscript_key offer "category";
   _get_category_enum category_id) = Ok name.
Proof.
  destruct offer as [| | | | |d]; try discriminate. simpl.
  destruct (d !! "category") as [c|] eqn:E; [|discriminate].
  rewrite bool_decide_true by eauto. simpl.
  destruct (_get_category_enum c); [|discriminate]. by intros [= ->].
Qed.

(** ** The category map *)

Section category_map.
Variable cat : loc -> string.

Lemma group_snoc name l x :
  group cat name (l ++ [x]) =
    group cat name l ++ (if String.eqb name (cat x) then [x] else []).
Proof. unfold group. by rewrite List.filter_app. Qed.

Lemma map_has_In name m : map_has name m = true <-> In name (map fst m).
Proof.
  unfold map_has. rewrite existsb_exists, in_map_iff. split.
  - intros (e & He & ->%String.eqb_eq). eauto.
  - intros (e & <- & He). exists e. by rewrite String.eqb_refl.
Qed.

Lemma map_inv_step l m x :
  map_inv cat l m -> map_inv cat (l ++ [x]) (map_append (cat x) x m).
Proof.
  intros (Hnd & Hall & Hcov). unfold map_append.
  destruct (map_has (cat x) m) eqn:Hhas.
  - assert (Hkeys :
      map fst (map (fun e : string * list loc =>
                 if String.eqb (cat x) e.1 then (e.1, e.2 ++ [x]) else e) m)
      = map fst m).
    { rewrite map_map. apply map_ext. intros e.
      by destruct (String.eqb (cat x) e.1). }
    split; [by rewrite Hkeys|]. split.
    + apply Forall_map. eapply Forall_impl; [exact Hall|].
      intros [name g] [Hg Hne]; simpl in *.
      rewrite String.eqb_sym. destruct (String.eqb name (cat x)) eqn:E; simpl.
      * rewrite group_snoc, E, <- Hg. split; [done|]. by destruct g.
      * rewrite group_snoc, E, app_nil_r. done.
    + rewrite Hkeys. intros a [Ha|[<-|[]]]%in_app_or; [auto|].
      by apply map_has_In.
  - assert (Hfresh : ~ In (cat x) (map fst m)).
    { rewrite <- map_has_In, Hhas. done. }
    split; [|split].
    + rewrite map_app. simpl. apply List.NoDup_app; [done| |].
      * constructor; [intros []|constructor].
      * by intros a Ha [<-|[]].
    + apply Forall_app. split.
      * rewrite List.Forall_forall in Hall |- *. intros [name g] He.
        destruct (Hall _ He) as [Hg Hne]; simpl in *.
        rewrite group_snoc. split; [|done].
        destruct (String.eqb_spec name (cat x)) as [->|]; [|by rewrite app_nil_r].
        destruct Hfresh. apply in_map_iff. exists (cat x, g). auto.
      * constructor; [|constructor]. simpl. split; [|done].
        rewrite group_snoc, String.eqb_refl.
        replace (group cat (cat x) l) with (@nil loc); [done|].
        symmetry. unfold group.
        destruct (List.filter _ l) as [|a ?] eqn:E; [done|].
        assert (Ha : In a (List.filter (fun a => String.eqb (cat x) (cat a)) l))
          by (rewrite E; by left).
        apply filter_In in Ha as [Ha Heq%String.eqb_eq].
        destruct Hfresh. rewrite Heq. auto.
    + rewrite map_app. intros a [Ha|[<-|[]]]%in_app_or; apply in_or_app;
        [left; auto | right; by left].
Qed.

Lemma build_inv l : map_inv cat l (build cat l).
Proof.
  unfold build. induction l as [|x l IH] using rev_ind.
  - repeat split; [constructor|constructor|intros ? []].
  - rewrite fold_left_app. by apply map_inv_step.
Qed.

Lemma map_get_missing l m name :
  map_inv cat l m -> (forall a, In a l -> cat a <> name) ->
  map_get name m = Raise KeyError.
Proof.
  intros (_ & Hall & _) Hno. unfold map_get.
  destruct (find _ m) as [[n g]|] eqn:E; [|done].
  apply find_some in E as [He Hn%String.eqb_eq]; simpl in Hn; subst n.
  rewrite List.Forall_forall in Hall. destruct (Hall _ He) as [Hg Hne]; simpl in *.
  destruct g as [|a g]; [done|].
  assert (Ha : In a (group cat name l)) by (rewrite <- Hg; by left).
  apply filter_In in Ha as [Ha Heq%String.eqb_eq]. by destruct (Hno a Ha).
Qed.
End category_map.

Lemma get_category_offers_map_eq self :
  (forall a, In a (offers self) -> is_Some (offer_category (heap self a))) ->
  _get_category_offers_map self = Ok (build (category_of self) (offers self)).
Proof.
  intros Hwf. unfold _get_category_offers_map, build.
  apply for_each_result_pure. intros m a [name Hname]%Hwf.
  pose proof (offer_category_read _ _ Hname) as Hread.
  unfold category_of. rewrite Hname. simpl.
  destruct (py_contains "category" (heap self a)) as [has|]; [|discriminate].
  simpl in *. destruct (assert has); [|discriminate]. simpl in *.
  destruct (subscript_key (heap self a) "category"); [|discriminate].
  simpl in *. by rewrite Hread.
Qed.

(** C7. On a working set whose offers all have a valid category id, if
    some requested name, once uppercased, is the category of no offer,
    [category_filter] raises [KeyError]: it does not return an empty
    selection for that name. *)
Theorem category_filter_missing_category
    (self : APIHandling) (desired_categories : list string) :
  (forall a, In a (offers self) -> is_Some (offer_category (heap self a))) ->
  (exists name, In name desired_categories /\
     forall a, In a (offers self) ->
       offer_category (heap self a) <> Some (str_upper name)) ->
  category_filter desired_categories self = Raise KeyError.
Proof.
  intros Hwf (name & Hname & Hnone). unfold category_filter.
  rewrite (get_category_offers_map_eq self Hwf). simpl.
  pose proof (build_inv (category_of self) (offers self)) as Hinv.
  rewrite (for_each_raises _ KeyError); [done| |].
  - intros acc x _. unfold map_get. destruct (find _ _); [right|left]; eauto.
  - exists (str_upper name). split.
    + unfold _standardize_category_names. by apply in_map.
    + intros acc. rewrite (map_get_missing _ _ _ _ Hinv); [done|].
      intros a Ha Heq. apply (Hnone a Ha).
      destruct (Hwf a Ha) as [n Hn]. unfold category_of in Heq.
      rewrite Hn in Heq. simpl in Heq. by rewrite Hn, Heq.
Qed.

Lemma category_filter_missing_category_witness :
  category_filter ["Restaurant"; "Hotel"]%string sample = Raise KeyError.
Proof.
  apply category_filter_missing_category.
  - each_sample_offer; vm_compute; eauto.
  - exists "Hotel"%string. split; [right; by left|].
    each_sample_offer; vm_compute; discriminate.
Defined.

(** ** Expiry *)

Lemma is_expired_eq self n arg last s expiry :
  _get_last_stay_date (checkin_date self) n = mret last ->
  _get_year_month_day_from_str s = Ok expiry ->
  exists r, _is_expired self (VStr s) n arg = mret r /\
            py_not r = negb (is_after last expiry).
Proof.
  intros Hlast Hs. unfold _is_expired. rewrite Hlast, py_bind_mret.
  destruct last as [[cy cm] cd], expiry as [[ey em] ed].
  simpl str_of. rewrite py_bind_lift_Ok, Hs, py_bind_lift_Ok.
  unfold is_after.
  destruct (cy >? ey); [by eexists|].
  destruct (cy =? ey); [|by eexists].
  destruct (cm >? em); [by eexists|].
  destruct (cm =? em); [|by eexists].
  destruct (cd >? ed); by eexists.
Qed.

(** C2. With a valid check-in date, 0 <= n <= 31 and offers whose
    [valid_to] is a parseable date string, [date_filter n] keeps exactly,
    and in order, the offers for which the date returned by
    [_get_last_stay_date] for the check-in date and n is not after the
    parsed [valid_to] date, comparing year, then month, then day. It
    prints nothing, and changes neither the offers themselves nor the
    check-in date. *)
Theorem date_filter_keeps (self : APIHandling) (n : Z) :
  _is_valid_date (checkin_date self) true = mret true ->
  (forall a, In a (offers self) -> is_Some (offer_valid_to (heap self a))) ->
  0 <= n <= 31 ->
  exists last after,
    _get_last_stay_date (checkin_date self) n = mret last /\
    date_filter n self = mret after /\
    offers after = List.filter (not_expired self last) (offers self) /\
    heap after = heap self /\
    checkin_date after = checkin_date self.
Proof.
  intros Hv Hwf [_ Hn].
  destruct (is_valid_date_true_inv _ _ _ Hv) as (y & m & d & dim & Hp & _).
  destruct (get_last_stay_date_in_range _ n _ _ _ Hv Hp Hn) as (? & _ & Hlast).
  match type of Hlast with _ = mret ?l => set (last := l) in * end.
  exists last,
    (set_offers self (List.filter (not_expired self last) (offers self))).
  split; [exact Hlast|]. split; [|done].
  unfold date_filter.
  rewrite (for_each_py_pure _
    (fun ans a => if not_expired self last a then ans ++ [a] else ans)).
  - by rewrite py_bind_mret, fold_left_keep.
  - intros ans a [expiry Ha]%Hwf. unfold not_expired. rewrite Ha.
    unfold offer_valid_to in Ha.
    destruct (heap self a) as [| | | | |o]; try discriminate.
    simpl subscript_key.
    destruct (o !! "valid_to") as [[| | |s| |]|]; try discriminate.
    rewrite py_bind_lift_Ok.
    destruct (_get_year_month_day_from_str s) as [dt|] eqn:Hs; [|discriminate].
    injection Ha as ->.
    destruct (is_expired_eq self n "" _ s expiry Hlast Hs) as (r & -> & Hr).
    by rewrite py_bind_mret, Hr.
Qed.

Lemma date_filter_keeps_witness :
  exists after,
    date_filter 5 sample = mret after /\
    offers after = [0; 2; 3]%nat /\ heap after = heap sample.
Proof.
  destruct (date_filter_keeps sample 5)
    as (last & after & Hlast & Hrun & Hoffers & Hheap & _).
  - reflexivity.
  - each_sample_offer; vm_compute; eauto.
  - lia.
  - exists after. vm_compute in Hlast. injection Hlast as <-.
    split; [exact Hrun|]. split; [|exact Hheap]. by rewrite Hoffers.
Defined.

(** ** Sorting by distance *)

Lemma number_le_refl x : number_le x x.
Proof.
  unfold number_le. destruct x as [p|[]]; simpl; try done.
  apply bool_decide_eq_false, Qcle_not_lt, Qcle_refl.
Qed.

Lemma number_lt_le x y : number_ltb x y = true -> number_le x y.
Proof.
  unfold number_le. destruct x as [p|[]], y as [q|[]]; simpl; try done.
  rewrite bool_decide_eq_true, bool_decide_eq_false.
  intros H. by apply Qcle_not_lt, Qclt_le_weak.
Qed.

Lemma number_le_trans x y z : number_le x y -> number_le y z -> number_le x z.
Proof.
  unfold number_le.
  destruct x as [p|[]], y as [q|[]], z as [r|[]]; simpl; try done.
  rewrite !bool_decide_eq_false. intros H1%Qcnot_lt_le H2%Qcnot_lt_le.
  apply Qcle_not_lt. by eapply Qcle_trans.
Qed.

Lemma number_le_finite p q : number_le (Finite p) (Finite q) -> (p <= q)%Qc.
Proof.
  unfold number_le. simpl. rewrite bool_decide_eq_false. apply Qcnot_lt_le.
Qed.

Lemma number_lt_finite p q :
  number_ltb (Finite p) (Finite q) = true -> (p < q)%Qc.
Proof. simpl. by rewrite bool_decide_eq_true. Qed.

Lemma as_number_numeric v q :
  as_number v = Some q <-> numeric v = Some (Finite q).
Proof.
  unfold as_number. destruct (numeric v) as [[p|n]|]; split; congruence.
Qed.

Lemma stable_sort_head {A} (l : list (number * A)) :
  l <> [] ->
  exists x rest, stable_sort l = x :: rest /\ In x l /\
                 forall y, In y l -> number_le x.1 y.1.
Proof.
  induction l as [|y l IH]; [done|]. intros _.
  destruct l as [|z l].
  { exists y, []. repeat split; [by left|]. intros ? [<-|[]]. apply number_le_refl. }
  destruct IH as (h & rest & Hs & Hh & Hmin); [done|].
  change (stable_sort (y :: z :: l)) with (insert_by_key y (stable_sort (z :: l))).
  rewrite Hs. simpl. destruct (number_ltb h.1 y.1) eqn:Hlt.
  - eexists _, _. split; [done|]. split; [by right|].
    intros w [<-|Hw]; [by apply number_lt_le | by apply Hmin].
  - eexists _, _. split; [done|]. split; [by left|].
    intros w [<-|Hw]; [apply number_le_refl|].
    eapply number_le_trans; [exact Hlt | by apply Hmin].
Qed.

Lemma mapM_result_Ok {A B} (f : A -> result B) (P : A -> B -> Prop) (l : list A) :
  (forall a, In a l -> exists b, f a = Ok b /\ P a b) ->
  exists bs, mapM f l = Ok bs /\ Forall2 P l bs.
Proof.
  induction l as [|x l IH]; intros H; simpl.
  - by exists [].
  - destruct (H x) as (b & -> & Hb); [by left|].
    destruct IH as (bs & -> & Hbs); [intros; apply H; by right|].
    exists (b :: bs). split; [done|]. by constructor.
Qed.

Lemma mapM_number_of (k : list Qc) (vs : list value) :
  Forall2 (fun q v => as_number v = Some q) k vs ->
  mapM number_of vs = Ok (map Finite k).
Proof.
  induction 1 as [|q v k vs Hq%as_number_numeric _ IH]; [done|].
  cbn [mapM]. rewrite IH. unfold number_of. by rewrite Hq.
Qed.

Lemma zip_keys {A} (k : A -> Qc) (l : list A) :
  zip (map Finite (map k l)) l = map (fun a => (Finite (k a), a)) l.
Proof. induction l as [|x l IH]; simpl; [done|]. by rewrite <- IH. Qed.

(** When every key is a number, the sort succeeds and puts first an
    element whose key is the least. *)
Lemma sort_by_key_head {A} (key : A -> result value) (k : A -> Qc) (l : list A) :
  l <> [] ->
  (forall a, In a l -> exists v, key a = Ok v /\ as_number v = Some (k a)) ->
  exists x rest, sort_by_key key l = Ok (x :: rest) /\ In x l /\
                 forall y, In y l -> (k x <= k y)%Qc.
Proof.
  intros Hne Hkey. unfold sort_by_key.
  destruct (mapM_result_Ok key (fun a v => as_number v = Some (k a)) l Hkey)
    as (vs & -> & Hvs). simpl.
  destruct (length l <? 2)%nat eqn:Hlen.
  - destruct l as [|x [|? ?]]; [done| |discriminate].
    exists x, []. repeat split; [by left|]. intros ? [<-|[]]. apply Qcle_refl.
  - rewrite (mapM_number_of (map k l)).
    2:{ clear -Hvs. induction Hvs; simpl; by constructor. }
    simpl. rewrite zip_keys.
    destruct (stable_sort_head (map (fun a => (Finite (k a), a)) l))
      as ([q x] & rest & -> & Hx & Hmin); [by destruct l|].
    apply in_map_iff in Hx as (x' & [= <- <-] & Hx).
    exists x', (map snd rest). repeat split; [done|].
    intros y Hy. apply number_le_finite.
    apply (Hmin (Finite (k y), y)). apply in_map_iff. eauto.
Qed.

(** ** Collapsing the merchants of an offer *)

Lemma merchant_filter_unfold self :
  merchant_filter self =
    h ← for_each (fun (h : loc -> value) (a : loc) =>
           offer ← collapse_offer (h a); Ok (<[a := offer]> h))
         (heap self) (offers self);
    Ok (set_heap self h).
Proof.
  unfold merchant_filter, collapse_offer. f_equal.
  assert (Hbody : forall (h : loc -> value) (a : loc),
    (ms ← subscript_key (h a) "merchants";
     n ← py_len ms;
     ms0 ← (if n >? 1
            then list_sort ms (fun x => subscript_key x "distance")
            else Ok ms);
     closest ← subscript_0 ms0;
     offer ← set_item (h a) "merchants" closest;
     Ok (<[a := offer]> h)) =
    (offer ← (ms ← subscript_key (h a) "merchants";
              n ← py_len ms;
              ms0 ← (if n >? 1
                     then list_sort ms (fun x => subscript_key x "distance")
                     else Ok ms);
              closest ← subscript_0 ms0;
              set_item (h a) "merchants" closest);
     Ok (<[a := offer]> h))).
  { intros h a. destruct (subscript_key (h a) "merchants") as [ms|]; [|done].
    simpl. destruct (py_len ms) as [n|]; [|done]. simpl.
    destruct (if n >? 1 then _ else _) as [ms0|]; [|done]. simpl.
    by destruct (subscript_0 ms0). }
  by apply for_each_result_ext.
Qed.

Lemma merchant_distance_key m q :
  merchant_distance m = Some q ->
  exists v, subscript_key m "distance" = Ok v /\ as_number v = Some q.
Proof.
  destruct m as [| | | | |d]; try discriminate. simpl.
  destruct (d !! "distance") as [v|]; [eauto|discriminate].
Qed.

Lemma collapse_offer_list offer :
  has_merchant_list offer = true ->
  exists offer', collapse_offer offer = Ok offer' /\ collapsed offer offer'.
Proof.
  unfold has_merchant_list, merchant_list, collapse_offer.
  destruct offer as [| | | | |d]; try discriminate. simpl subscript_key.
  destruct (d !! "merchants") as [[| | | |ms|]|] eqn:Hd; try discriminate.
  destruct ms as [|m0 ms0] eqn:Hms; [discriminate|]. rewrite <- Hms.
  intros Hall. simpl.
  assert (Hdist : forall m, In m ms -> is_Some (merchant_distance m)).
  { intros m Hm. rewrite forallb_forall in Hall. specialize (Hall m Hm).
    destruct (merchant_distance m); [eauto|discriminate]. }
  assert (Hsel : exists m rest,
    (if Z.of_nat (length ms) >? 1
     then list_sort (VList ms) (fun x => subscript_key x "distance")
     else Ok (VList ms)) = Ok (VList (m :: rest)) /\
    In m ms /\
    forall m', In m' ms ->
      (default 0%Qc (merchant_distance m) <= default 0%Qc (merchant_distance m'))%Qc).
  { destruct (Z.of_nat (length ms) >? 1) eqn:Hlen.
    - destruct (sort_by_key_head (fun x => subscript_key x "distance")
                  (fun m => default 0%Qc (merchant_distance m)) ms)
        as (m & rest & Hsort & Hm & Hmin); [by rewrite Hms| |].
      + intros a [q Hq]%Hdist. rewrite Hq. by apply merchant_distance_key.
      + exists m, rest. simpl. by rewrite Hsort.
    - exists m0, ms0. rewrite Hms in *. split; [done|]. split; [by left|].
      destruct ms0; [|rewrite Z.gtb_ltb, Z.ltb_ge in Hlen; simpl length in Hlen; lia].
      intros ? [<-|[]]. apply Qcle_refl. }
  simpl in Hsel. destruct Hsel as (m & rest & -> & Hm & Hmin). simpl.
  eexists. split; [done|]. exists d, ms, m.
  split; [done|]. split; [by rewrite Hms|]. split; [done|].
  split; [auto|]. split; [|done].
  intros m' q q' Hm' Hq Hq'. specialize (Hmin m' Hm').
  by rewrite Hq, Hq' in Hmin.
Qed.

(** After the collapse the merchants entry is a record, not a list: the
    next [len] counts its fields, and neither [sort] nor [[0]] applies. *)
Lemma collapse_offer_record offer offer' :
  collapsed offer offer' ->
  collapse_offer offer' = Raise AttributeError \/
  collapse_offer offer' = Raise KeyError.
Proof.
  intros (d & ms & m & _ & _ & _ & [q Hq] & _ & ->).
  unfold collapse_offer. simpl subscript_key. rewrite lookup_insert_eq.
  destruct m as [| | | | |dm]; try discriminate. simpl.
  destruct (Z.of_nat (size dm) >? 1); auto.
Qed.

Lemma merchant_loop (l : list loc) (h : loc -> value) :
  List.NoDup l ->
  (forall a, In a l -> has_merchant_list (h a) = true) ->
  exists h',
    for_each (fun (h : loc -> value) (a : loc) =>
        offer ← collapse_offer (h a); Ok (<[a := offer]> h)) h l = Ok h' /\
    (forall a, ~ In a l -> h' a = h a) /\
    (forall a, In a l -> collapsed (h a) (h' a)).
Proof.
  revert h. induction l as [|x l IH]; intros h Hnd Hwf.
  - exists h. split; [done|]. split; [done|]. intros ? [].
  - apply List.NoDup_cons_iff in Hnd as [Hx Hnd].
    destruct (collapse_offer_list (h x)) as (o & Ho & Hcol);
      [apply Hwf; by left|].
    simpl. rewrite Ho. simpl.
    destruct (IH (<[x := o]> h) Hnd) as (h' & -> & Hout & Hin).
    { intros a Ha. rewrite fn_lookup_insert_ne by (by intros <-).
      apply Hwf. by right. }
    exists h'. split; [done|]. split.
    + intros a Ha. rewrite Hout by (intros ?; apply Ha; by right).
      apply fn_lookup_insert_ne. intros <-. apply Ha. by left.
    + intros a [<-|Ha].
      * by rewrite (Hout _ Hx), fn_lookup_insert.
      * specialize (Hin a Ha).
        by rewrite fn_lookup_insert_ne in Hin by (by intros <-).
Qed.

(** C1, as stated, fails: on the sample payload a first application
    succeeds and a second one raises [AttributeError]. *)
Lemma merchant_filter_not_idempotent :
  (forall a, In a (offers sample) -> has_merchant_list (heap sample a) = true) /\
  (exists once, merchant_filter sample = Ok once) /\
  merchant_filter sample ≫= merchant_filter = Raise AttributeError /\
  merchant_filter sample ≫= merchant_filter <> merchant_filter sample.
Proof.
  split; [|split; [|split]].
  - by each_sample_offer.
  - eexists. reflexivity.
  - reflexivity.
  - intros H. vm_compute in H. discriminate.
Qed.

(** C1, amended. On a working set of distinct offer objects, each
    carrying a non-empty list of merchant records with numeric distances,
    one application of [merchant_filter] succeeds: the working set keeps
    the same offers, and each of them has its list replaced by one of its
    merchants, at the least distance. It is not idempotent: a second
    application returns the same state only when the working set is
    empty, and otherwise raises [AttributeError] or [KeyError], the
    merchants entry now being a record. *)
Theorem merchant_filter_once (self : APIHandling) :
  List.NoDup (offers self) ->
  (forall a, In a (offers self) -> has_merchant_list (heap self a) = true) ->
  exists once,
    merchant_filter self = Ok once /\
    offers once = offers self /\
    (forall a, In a (offers self) -> collapsed (heap self a) (heap once a)) /\
    (offers self = [] -> merchant_filter once = Ok once) /\
    (offers self <> [] ->
       merchant_filter once = Raise AttributeError \/
       merchant_filter once = Raise KeyError).
Proof.
  intros Hnd Hwf.
  destruct (merchant_loop (offers self) (heap self) Hnd Hwf)
    as (h' & Hloop & _ & Hcol).
  exists (set_heap self h'). rewrite !merchant_filter_unfold, Hloop.
  split; [done|]. split; [done|]. split; [done|]. simpl. split.
  - by intros ->.
  - destruct (offers self) as [|a l]; [done|]. intros _. simpl.
    destruct (collapse_offer_record _ _ (Hcol a ltac:(by left))) as [-> | ->];
      auto.
Qed.

Lemma merchant_filter_once_witness :
  exists once,
    merchant_filter sample = Ok once /\
    (merchant_filter once = Raise AttributeError \/
     merchant_filter once = Raise KeyError).
Proof.
  destruct (merchant_filter_once sample) as (once & H1 & _ & _ & _ & H2).
  - repeat constructor; simpl; intuition lia.
  - by each_sample_offer.
  - exists once. split; [done|]. by apply H2.
Defined.

(** ** Closest offer of each category *)

Lemma offer_distance_key offer q :
  offer_distance offer = Some q ->
  exists v, (m ← subscript_key offer "merchants"; subscript_key m "distance") = Ok v /\
            as_number v = Some q.
Proof.
  destruct offer as [| | | | |d]; try discriminate. simpl.
  destruct (d !! "merchants") as [m|]; [|discriminate]. simpl.
  apply merchant_distance_key.
Qed.

Lemma distance_of_le self a b :
  is_Some (offer_distance (heap self a)) ->
  is_Some (offer_distance (heap self b)) ->
  (distance_of self a <= distance_of self b)%Qc ->
  closer_or_equal (offer_distance (heap self a)) (offer_distance (heap self b)).
Proof.
  unfold distance_of. intros [p Hp] [q Hq]. rewrite Hp, Hq. simpl.
  intros Hle. by exists p, q.
Qed.

Lemma for_each_collect {A B} (body : list B -> A -> result (list B))
    (R : A -> B -> Prop) (l : list A) (acc : list B) :
  (forall e, In e l -> exists x, R e x /\ forall ans, body ans e = Ok (ans ++ [x])) ->
  exists xs, for_each body acc l = Ok (acc ++ xs) /\ Forall2 R l xs.
Proof.
  revert acc. induction l as [|e l IH]; intros acc H; simpl.
  - exists []. by rewrite app_nil_r.
  - destruct (H e) as (x & Hx & ->); [by left|]. simpl.
    destruct (IH (acc ++ [x])) as (xs & -> & Hxs); [intros; apply H; by right|].
    exists (x :: xs). rewrite <- app_assoc. split; [done|]. by constructor.
Qed.

Lemma Forall2_In_r {A B} (R : A -> B -> Prop) l xs x :
  Forall2 R l xs -> In x xs -> exists e, In e l /\ R e x.
Proof.
  induction 1 as [|e y l ys Hey _ IH]; [intros []|].
  intros [<-|Hx]; [exists e; split; [by left|done]|].
  destruct (IH Hx) as (e' & He' & HR). exists e'. split; [by right|done].
Qed.

Lemma Forall2_In_l {A B} (R : A -> B -> Prop) l xs e :
  Forall2 R l xs -> In e l -> exists x, In x xs /\ R e x.
Proof.
  induction 1 as [|e' y l ys Hey _ IH]; [intros []|].
  intros [<-|He]; [exists y; split; [by left|done]|].
  destruct (IH He) as (x & Hx & HR). exists x. split; [by right|done].
Qed.

(** C9. When every offer of the working set has a valid category and a
    single merchant record with a numeric distance,
    [closest_merchant_per_category_filter] returns offers of the working
    set, no two of the same category, one for each category present, and
    each at a distance less than or equal to that of every offer of its
    category in the working set it was given. *)
Theorem closest_merchant_per_category_spec (self : APIHandling) :
  (forall a, In a (offers self) ->
     is_Some (offer_category (heap self a)) /\
     is_Some (offer_distance (heap self a))) ->
  exists after,
    closest_merchant_per_category_filter self = Ok after /\
    heap after = heap self /\
    List.NoDup (map (fun a => offer_category (heap self a)) (offers after)) /\
    (forall a, In a (offers after) ->
       In a (offers self) /\
       forall b, In b (offers self) ->
         offer_category (heap self b) = offer_category (heap self a) ->
         closer_or_equal (offer_distance (heap self a))
                         (offer_distance (heap self b))) /\
    (forall b, In b (offers self) ->
       exists a, In a (offers after) /\
         offer_category (heap self a) = offer_category (heap self b)).
Proof.
  intros Hwf. unfold closest_merchant_per_category_filter.
  rewrite get_category_offers_map_eq by (intros a Ha; by apply Hwf).
  set (cat := category_of self). set (m := build cat (offers self)).
  destruct (build_inv cat (offers self)) as (Hnd & Hall & Hcov). fold m in Hnd, Hall, Hcov.
  rewrite List.Forall_forall in Hall.
  assert (Hcat : forall a, In a (offers self) ->
            offer_category (heap self a) = Some (cat a)).
  { intros a [[n Hn] _]%Hwf. unfold cat, category_of. by rewrite Hn. }
  set (R := fun (e : string * list loc) (x : loc) =>
    In x (group cat e.1 (offers self)) /\
    forall y, In y (group cat e.1 (offers self)) ->
      (distance_of self x <= distance_of self y)%Qc).
  simpl.
  edestruct (for_each_collect
    (fun (answers : list loc) (entry : string * list loc) =>
       sorted ← sort_by_key (fun a =>
                   m ← subscript_key (heap self a) "merchants";
                   subscript_key m "distance") entry.2;
       first ← list_index sorted 0;
       Ok (answers ++ [first])) R m []) as (xs & -> & Hxs).
  { intros e He. destruct (Hall e He) as [Hg Hne].
    destruct (sort_by_key_head
      (fun a => m ← subscript_key (heap self a) "merchants";
                subscript_key m "distance")
      (distance_of self) e.2 Hne) as (x & rest & Hsort & Hx & Hmin).
    { intros a Ha. rewrite Hg in Ha. apply filter_In in Ha as [Ha _].
      destruct (Hwf a Ha) as [_ [q Hq]]. unfold distance_of. rewrite Hq.
      by apply offer_distance_key. }
    exists x. unfold R. rewrite <- Hg. split; [done|].
    intros ans. by rewrite Hsort. }
  simpl. eexists. split; [done|]. simpl. split; [done|].
  assert (Hin : forall a, In a xs ->
    In a (offers self) /\
    forall b, In b (offers self) -> cat b = cat a ->
      (distance_of self a <= distance_of self b)%Qc).
  { intros a Ha. destruct (Forall2_In_r _ _ _ _ Hxs Ha) as (e & He & Hg & Hmin).
    apply filter_In in Hg as [Hg Hn%String.eqb_eq]. split; [done|].
    intros b Hb Hsame. apply Hmin. apply filter_In. split; [done|].
    rewrite Hsame, <- Hn. apply String.eqb_refl. }
  split; [|split].
  - replace (map (fun a => offer_category (heap self a)) xs)
      with (map Some (map fst m)).
    { apply Finite.Injective_map_NoDup; [|done]. by intros ?? [= ->]. }
    clear -Hxs Hcat. induction Hxs as [|e x l xs [Hx _] _ IH]; [done|].
    apply filter_In in Hx as [Hx Hn%String.eqb_eq].
    simpl. by rewrite IH, (Hcat x Hx), Hn.
  - intros a Ha. destruct (Hin a Ha) as [Ha' Hmin]. split; [done|].
    intros b Hb Hsame. rewrite (Hcat a Ha'), (Hcat b Hb) in Hsame.
    injection Hsame as Hsame.
    apply distance_of_le; [by apply Hwf..|]. by apply Hmin.
  - intros b Hb. specialize (Hcov b Hb).
    apply in_map_iff in Hcov as (e & He1 & He).
    destruct (Forall2_In_l _ _ _ _ Hxs He) as (a & Ha & Hg & _).
    apply filter_In in Hg as [Hg Hn%String.eqb_eq].
    exists a. split; [done|]. rewrite (Hcat a Hg), (Hcat b Hb). congruence.
Qed.

Lemma closest_merchant_per_category_spec_witness :
  exists after,
    closest_merchant_per_category_filter sample_collapsed = Ok after /\
    offers after = [2; 1; 3]%nat.
Proof.
  destruct (closest_merchant_per_category_spec sample_collapsed)
    as (after & Hafter & _).
  - each_sample_offer; vm_compute; eauto.
  - exists after. split; [done|].
    vm_compute in Hafter. by injection Hafter as <-.
Defined.

(** ** The two closest offers *)




Section scan.
Variables (k : loc -> Qc) (seen : loc -> bool).

Lemma scan_inv_step l acc x :
  scan_inv k seen l acc -> scan_inv k seen (l ++ [x]) (scan_step k seen acc x).
Proof.
  unfold scan_step. intros [[-> Hseen]|(a & -> & Ha & Hsa & Hmin)].
  - destruct (seen x) eqn:Hx; simpl.
    + left. split; [done|]. intros b [Hb|[<-|[]]]%in_app_or; auto.
    + right. exists x. split; [done|]. split; [apply in_or_app; right; by left|].
      split; [done|]. intros b [Hb|[<-|[]]]%in_app_or Hsb.
      * rewrite (Hseen b Hb) in Hsb. discriminate.
      * apply Qcle_refl.
  - right. destruct (seen x) eqn:Hx; simpl.
    + exists a. split; [done|]. split; [apply in_or_app; by left|].
      split; [done|]. intros b [Hb|[<-|[]]]%in_app_or Hsb; [auto|congruence].
    + case_bool_decide as Hlt.
      * exists x. split; [done|]. split; [apply in_or_app; right; by left|].
        split; [done|]. intros b [Hb|[<-|[]]]%in_app_or Hsb.
        -- eapply Qcle_trans; [by apply Qclt_le_weak|auto].
        -- apply Qcle_refl.
      * exists a. split; [done|]. split; [apply in_or_app; by left|].
        split; [done|]. intros b [Hb|[<-|[]]]%in_app_or Hsb; [auto|].
        by apply Qcnot_lt_le.
Qed.

Lemma scan_fold l : scan_inv k seen l (fold_left (scan_step k seen) l (math_inf, None)).
Proof.
  induction l as [|x l IH] using rev_ind.
  - left. split; [done|]. intros ? [].
  - rewrite fold_left_app. by apply scan_inv_step.
Qed.
End scan.

Lemma single_merchant_offer_inv offer :
  single_merchant_offer offer = true ->
  exists d i q, offer = VDict d /\ d !! "id" = Some i /\ hashable i = true /\
                offer_distance offer = Some q.
Proof.
  unfold single_merchant_offer.
  destruct (offer_id offer) as [i|] eqn:Hi; [|discriminate].
  destruct (offer_distance offer) as [q|] eqn:Hq; [|discriminate].
  destruct offer as [| | | | |d]; try discriminate. intros Hh.
  by exists d, i, q.
Qed.

Lemma get_offer_id_eq d i :
  d !! "id" = Some i -> _get_offer_id (VDict d) = Ok i.
Proof.
  intros Hi. unfold _get_offer_id. simpl.
  by rewrite Hi, bool_decide_true by eauto.
Qed.

Lemma get_offer_merchants_eq d m :
  d !! "merchants" = Some m -> _get_offer_merchants (VDict d) = Ok m.
Proof.
  intros Hm. unfold _get_offer_merchants. simpl.
  by rewrite Hm, bool_decide_true by eauto.
Qed.

Lemma merchant_distance_read m q :
  merchant_distance m = Some q ->
  exists v, py_contains "distance" m = Ok true /\
            subscript_key m "distance" = Ok v /\ as_number v = Some q.
Proof.
  destruct m as [| | | | |dm]; try discriminate. simpl.
  destruct (dm !! "distance") as [v|]; [|discriminate].
  intros Hv. exists v. by rewrite bool_decide_true by eauto.
Qed.

Lemma get_closest_merchant_offer_eq self seen_offers_set :
  (forall a, In a (offers self) -> single_merchant_offer (heap self a) = true) ->
  _get_closest_merchant_offer self seen_offers_set =
    Ok (fold_left (scan_step (distance_of self) (seen_in self seen_offers_set))
          (offers self) (math_inf, None)).2.
Proof.
  intros Hwf. unfold _get_closest_merchant_offer.
  rewrite (for_each_result_pure _
    (scan_step (distance_of self) (seen_in self seen_offers_set))); [done|].
  intros [min closest] a Ha.
  destruct (single_merchant_offer_inv _ (Hwf a Ha))
    as (d & i & q & Hd & Hi & Hh & Hq).
  unfold scan_step, seen_in, id_of, distance_of. rewrite Hq, Hd. simpl offer_id.
  rewrite Hi, (get_offer_id_eq d i Hi). simpl.
  unfold set_contains. rewrite Hh. simpl.
  destruct (existsb (py_eqb i) seen_offers_set); simpl; [done|].
  rewrite Hd in Hq. simpl in Hq.
  destruct (d !! "merchants") as [m|] eqn:Hm; [|discriminate].
  rewrite (get_offer_merchants_eq d m Hm). simpl.
  destruct (merchant_distance_read m q Hq) as (v & -> & -> & Hv). simpl.
  apply as_number_numeric in Hv. unfold number_of. by rewrite Hv.
Qed.

Lemma dict_truthy (d : gmap string value) k v :
  d !! k = Some v -> truthy (VDict d) = true.
Proof.
  intros Hk. simpl. rewrite bool_decide_false; [done|].
  intros ->%map_size_empty_inv. by rewrite lookup_empty in Hk.
Qed.

(** The run of [top_two_offers_filter], given what its two scans find. *)
Lemma top_two_offers_filter_run self c1 c2 :
  (forall a, In a (offers self) -> single_merchant_offer (heap self a) = true) ->
  (forall a, c1 = Some a -> In a (offers self)) ->
  (forall a, c2 = Some a -> In a (offers self) /\ is_Some c1) ->
  (fold_left (scan_step (distance_of self) (seen_in self []))
     (offers self) (math_inf, None)).2 = c1 ->
  (fold_left (scan_step (distance_of self)
                (seen_in self (if c1 is Some a then [id_of self a] else [])))
     (offers self) (math_inf, None)).2 = c2 ->
  top_two_offers_filter self
  = Ok (set_offers self (option_list c1 ++ option_list c2)).
Proof.
  intros Hwf Hc1 Hc2 E1 E2. unfold top_two_offers_filter.
  rewrite (get_closest_merchant_offer_eq self [] Hwf), E1. simpl.
  destruct c1 as [a1|].
  - destruct (single_merchant_offer_inv _ (Hwf a1 (Hc1 a1 eq_refl)))
      as (d1 & i1 & q1 & Hd1 & Hi1 & Hh1 & _).
    assert (Hid1 : id_of self a1 = i1).
    { unfold id_of. rewrite Hd1. simpl. by rewrite Hi1. }
    rewrite Hid1 in E2.
    rewrite Hd1, (dict_truthy d1 _ _ Hi1). simpl. rewrite Hi1. simpl.
    unfold set_add. rewrite Hh1. simpl.
    rewrite (get_closest_merchant_offer_eq self [i1] Hwf), E2. simpl.
    destruct c2 as [a2|]; [|done].
    destruct (Hc2 a2 eq_refl) as [Ha2 _].
    destruct (single_merchant_offer_inv _ (Hwf a2 Ha2))
      as (d2 & i2 & q2 & Hd2 & Hi2 & _).
    by rewrite Hd2, (dict_truthy d2 _ _ Hi2).
  - simpl. rewrite (get_closest_merchant_offer_eq self [] Hwf), E2. simpl.
    destruct c2 as [a2|]; [|done].
    destruct (Hc2 a2 eq_refl) as [_ [? ?]]. discriminate.
Qed.




(** * Further properties of the date engine *)

Lemma get_no_days_in_eq year month :
  1 <= month <= 12 ->
  _get_no_days_in year month = Ok (days_in_month year month).
Proof.
  intros Hm. unfold _get_no_days_in, days_in_month, is_leap_year.
  replace ((1 <=? month) && (month <=? 12)) with true
    by (symmetry; apply andb_true_intro; split; apply Z.leb_le; lia).
  simpl. destruct (month =? 2); [done|].
  by rewrite orb_false_r, !orb_assoc.
Qed.

Lemma days_in_month_bounds year month : 28 <= days_in_month year month <= 31.
Proof.
  unfold days_in_month.
  destruct (month =? 2); [destruct (year mod 4 =? 0); lia|].
  destruct (_ || _); lia.
Qed.

Lemma str_split_dash_more a b c rest :
  digit_field a = true -> digit_field b = true -> digit_field c = true ->
  str_split_dash (a +:+ "-" +:+ b +:+ "-" +:+ c +:+ "-" +:+ rest)
  = a :: b :: c :: str_split_dash rest.
Proof.
  intros Ha Hb Hc.
  change (str_split_dash
            (a +:+ String "-" (b +:+ String "-" (c +:+ String "-" rest)))
          = a :: b :: c :: str_split_dash rest).
  rewrite (str_split_dash_field a), (str_split_dash_field b),
    (str_split_dash_field c); auto using digit_field_all.
Qed.

(** X1. Whatever the length of the first field, three non-empty digit
    fields of at most 4300 digits each are read by looking at the lengths
    of the second and third only: if the third has four characters it is
    the year and the first two are month and day; otherwise if the second
    has four characters it is the year, the first is the month and the
    third the day; otherwise the fields are taken as year, month, day.
    Anything after a third '-' is ignored. *)
Theorem parse_date_three_fields (a b c rest : string) :
  short_field a = true -> short_field b = true -> short_field c = true ->
  let expected :=
    Ok (if str_len c =? 4
        then (decimal_value c, decimal_value a, decimal_value b)
        else if str_len b =? 4
             then (decimal_value b, decimal_value a, decimal_value c)
             else (decimal_value a, decimal_value b, decimal_value c)) in
  _get_year_month_day_from_str (a +:+ "-" +:+ b +:+ "-" +:+ c) = expected /\
  _get_year_month_day_from_str (a +:+ "-" +:+ b +:+ "-" +:+ c +:+ "-" +:+ rest)
  = expected.
Proof.
  intros Ha Hb Hc expected. subst expected.
  pose proof (str_split_dash_three a b c (short_field_digit a Ha)
                (short_field_digit b Hb) (short_field_digit c Hc)) as H3.
  pose proof (str_split_dash_more a b c rest (short_field_digit a Ha)
                (short_field_digit b Hb) (short_field_digit c Hc)) as H4.
  rewrite (parse_fields _ _ _ _ _ H3), (parse_fields _ _ _ _ _ H4).
  unfold field_order.
  destruct (str_len c =? 4), (str_len b =? 4);
    by rewrite !int_of_str_short_field.
Qed.

Lemma parse_date_three_fields_witness :
  _get_year_month_day_from_str "23-12-25" = Ok (23, 12, 25) /\
  _get_year_month_day_from_str "1999-2000-2001-x" = Ok (2001, 1999, 2000).
Proof.
  split.
  - apply (proj1 (parse_date_three_fields "23" "12" "25" ""
                    eq_refl eq_refl eq_refl)).
  - apply (proj2 (parse_date_three_fields "1999" "2000" "2001" "x"
                    eq_refl eq_refl eq_refl)).
Defined.

Lemma list_index_In {A} (l : list A) i x : list_index l i = Ok x -> In x l.
Proof.
  unfold list_index. destruct (l !! i) as [y|] eqn:E; [|discriminate].
  intros [= <-]. by eapply list_elem_of_In, list_elem_of_lookup_2.
Qed.

Lemma parsed_fields_nonneg (s : string) (y m d : Z) :
  _get_year_month_day_from_str s = Ok (y, m, d) ->
  0 <= y /\ 0 <= m /\ 0 <= d.
Proof.
  unfold _get_year_month_day_from_str. intros H.
  pose proof (str_split_dash_no_dash s) as Hall.
  rewrite List.Forall_forall in Hall.
  apply result_bind_Ok in H as (f0 & H0%list_index_In%Hall & H).
  apply result_bind_Ok in H as (f1 & H1%list_index_In%Hall & H).
  apply result_bind_Ok in H as (f2 & H2%list_index_In%Hall & H).
  destruct (str_len f1 =? 4), (str_len f2 =? 4);
    apply result_bind_Ok in H as (y' & Hy & H);
    apply result_bind_Ok in H as (m' & Hm & H);
    apply result_bind_Ok in H as (d' & Hd & H);
    (apply int_of_str_nonneg in Hy; [|assumption]);
    (apply int_of_str_nonneg in Hm; [|assumption]);
    (apply int_of_str_nonneg in Hd; [|assumption]);
    injection H as <- <- <-; done.
Qed.

(** X2. The numbers parsed from a date string are never negative: the
    string is split at every '-', so no field that [int] is given holds a
    sign it would read as a minus. *)
Theorem parse_date_nonneg (s : string) (y m d : Z) :
  _get_year_month_day_from_str s = Ok (y, m, d) ->
  0 <= y /\ 0 <= m /\ 0 <= d.
Proof. apply parsed_fields_nonneg. Qed.

Lemma parse_date_nonneg_witness : 0 <= 2023 /\ 0 <= 4 /\ 0 <= 30.
Proof. apply (parse_date_nonneg "4-30-2023"). reflexivity. Defined.

(** X3. Once a non-empty string of digits and '-' has been parsed to
    (year, month, day), [_is_valid_date] does not raise: it answers whether
    1 <= month <= 12 and 1 <= day <= number of days of the month, with 29
    days in February in every year divisible by 4. It prints one line when
    the answer is False and the caller is not testing, and nothing
    otherwise. *)
Theorem is_valid_date_calendar (s : string) (t : bool) (y m d : Z) :
  String.eqb s "" = false ->
  all_chars date_char s = true ->
  _get_year_month_day_from_str s = Ok (y, m, d) ->
  _is_valid_date s t =
    (if valid_ymd (y, m, d) || t then []
     else if (1 <=? m) && (m <=? 12) then [MsgInvalidDay y m d]
          else [MsgInvalidMonth y m d],
     Ok (valid_ymd (y, m, d))).
Proof.
  intros Hne Hch Hp. rewrite (is_valid_date_unfold s t Hne Hch), Hp.
  rewrite py_bind_lift_Ok. unfold valid_ymd.
  destruct ((1 <=? m) && (m <=? 12)) eqn:Hm; simpl negb; cbv iota.
  2:{ by destruct t. }
  rewrite get_no_days_in_eq, py_bind_lift_Ok by lia. simpl andb.
  destruct ((1 <=? d) && (d <=? days_in_month y m)); simpl negb; cbv iota;
    [done | by destruct t].
Qed.

Lemma is_valid_date_calendar_witness :
  _is_valid_date "2-29-2100" false = mret true /\
  _is_valid_date "2-30-2100" false = ([MsgInvalidDay 2100 2 30], Ok false).
Proof.
  split.
  - apply (is_valid_date_calendar "2-29-2100" false 2100 2 29); reflexivity.
  - apply (is_valid_date_calendar "2-30-2100" false 2100 2 30); reflexivity.
Defined.

Lemma valid_ymd_inv y m d :
  valid_ymd (y, m, d) = true ->
  1 <= m <= 12 /\ 1 <= d <= days_in_month y m.
Proof. unfold valid_ymd. rewrite !andb_true_iff, !Z.leb_le. lia. Qed.

Lemma valid_ymd_intro y m d :
  1 <= m <= 12 -> 1 <= d <= days_in_month y m -> valid_ymd (y, m, d) = true.
Proof. unfold valid_ymd. rewrite !andb_true_iff, !Z.leb_le. lia. Qed.

(** X4. From a valid date and 0 <= n <= 28, [_get_last_stay_date] returns
    a valid date. Beyond 28 days it may not: 29 days after 31 January 2023
    it returns 29 February 2023. *)
Theorem get_last_stay_date_valid (s : string) (n : Z) :
  _is_valid_date s true = mret true ->
  0 <= n <= 28 ->
  (exists dt, _get_last_stay_date s n = mret dt /\ valid_ymd dt = true) /\
  _get_last_stay_date "1-31-2023" 29 = mret (2023, 2, 29) /\
  valid_ymd (2023, 2, 29) = false.
Proof.
  intros Hv Hn. split; [|split; reflexivity].
  destruct (is_valid_date_true_inv _ _ _ Hv)
    as (y & m & d & dim & Hp & Hdim & Hm & Hd).
  rewrite get_no_days_in_eq in Hdim by done. injection Hdim as <-.
  destruct (get_last_stay_date_in_range s n y m d Hv Hp) as (dim & Hdim & ->);
    [lia|].
  rewrite get_no_days_in_eq in Hdim by done. injection Hdim as <-.
  eexists. split; [done|].
  destruct (Z.leb_spec (d + n) (days_in_month y m)).
  - apply valid_ymd_intro; lia.
  - destruct (Z.eqb_spec (m + 1) 13).
    + apply valid_ymd_intro; [lia|].
      pose proof (days_in_month_bounds (y + 1) 1). lia.
    + apply valid_ymd_intro; [lia|].
      pose proof (days_in_month_bounds y (m + 1)). lia.
Qed.

Lemma get_last_stay_date_valid_witness :
  exists dt, _get_last_stay_date "12-25-2023" 28 = mret dt /\
             valid_ymd dt = true.
Proof.
  apply (proj1 (get_last_stay_date_valid "12-25-2023" 28 eq_refl ltac:(lia))).
Defined.

(** X5. A negative number of days is not rejected and never changes the
    month: from a valid date parsed to (year, month, day) the result is
    (year, month, day + n), whose day may be zero or negative. *)
Theorem get_last_stay_date_negative (s : string) (n y m d : Z) :
  _is_valid_date s true = mret true ->
  _get_year_month_day_from_str s = Ok (y, m, d) ->
  n < 0 ->
  _get_last_stay_date s n = mret (y, m, d + n).
Proof.
  intros Hv Hp Hn.
  destruct (is_valid_date_true_inv _ _ _ Hv)
    as (y' & m' & d' & dim & Hp' & Hdim & Hm & Hd).
  rewrite Hp in Hp'. injection Hp' as <- <- <-.
  destruct (get_last_stay_date_in_range s n y m d Hv Hp) as (dim' & Hdim' & ->);
    [lia|].
  rewrite Hdim in Hdim'. injection Hdim' as <-.
  by replace (d + n <=? dim) with true by lia.
Qed.

Lemma get_last_stay_date_negative_witness :
  _get_last_stay_date "3-1-2023" (-1) = mret (2023, 3, 0).
Proof.
  apply (get_last_stay_date_negative "3-1-2023" (-1) 2023 3 1);
    [reflexivity | reflexivity | lia].
Defined.

(** * Further properties of the expiry filter *)

(** X6. What [_is_expired] returns, once the last day of the stay
    (cy, cm, cd) and the expiry date (ey, em, ed) are known: [True] exactly
    when the former is after the latter; nothing ([None]) when the years are
    equal and cm < em; [False] in the remaining cases. The check-in date
    passed as third argument plays no part. *)
Theorem is_expired_three_valued
    (self : APIHandling) (n : Z) (arg s : string) (cy cm cd ey em ed : Z) :
  _get_last_stay_date (checkin_date self) n = mret (cy, cm, cd) ->
  _get_year_month_day_from_str s = Ok (ey, em, ed) ->
  _is_expired self (VStr s) n arg =
    mret (if is_after (cy, cm, cd) (ey, em, ed) then Some true
          else if (cy =? ey) && (cm <? em) then None
               else Some false).
Proof.
  intros Hlast Hs. unfold _is_expired. rewrite Hlast, py_bind_mret.
  simpl str_of. rewrite py_bind_lift_Ok, Hs, py_bind_lift_Ok.
  unfold is_after.
  destruct (Z.gtb_spec cy ey); [done|]. simpl orb.
  destruct (Z.eqb_spec cy ey); simpl andb; [|done].
  destruct (Z.gtb_spec cm em); [done|]. simpl orb.
  destruct (Z.eqb_spec cm em); simpl andb.
  - replace (cm <? em) with false by lia. by destruct (cd >? ed).
  - by replace (cm <? em) with true by lia.
Qed.

Lemma is_expired_three_valued_witness :
  _is_expired sample (VStr "2019-12-28") 5 "" = mret (Some true) /\
  _is_expired sample (VStr "2019-12-31") 5 "1-1-2000" = mret (Some false) /\
  _is_expired sample (VStr "2020-02-01") 8 "" = mret None.
Proof.
  split; [|split].
  - apply (is_expired_three_valued sample 5 "" "2019-12-28"
             2019 12 30 2019 12 28); reflexivity.
  - apply (is_expired_three_valued sample 5 "1-1-2000" "2019-12-31"
             2019 12 30 2019 12 31); reflexivity.
  - apply (is_expired_three_valued sample 8 "" "2020-02-01"
             2020 1 2 2020 2 1); reflexivity.
Defined.

Lemma for_each_py_print {A B} (body : B -> A -> py B) (g : B -> A -> B)
    (msg : message) (l : list A) (acc : B) :
  (forall acc x, In x l -> body acc x = ([msg], Ok (g acc x))) ->
  for_each body acc l = (repeat msg (length l), Ok (fold_left g l acc)).
Proof.
  revert acc. induction l as [|x l IH]; intros acc H; simpl; [done|].
  rewrite H by (by left). unfold mbind, py_bind.
  rewrite IH by (intros; apply H; by right). done.
Qed.

Lemma fold_left_snoc {A} (l acc : list A) :
  fold_left (fun ans a => ans ++ [a]) l acc = acc ++ l.
Proof.
  revert acc. induction l as [|x l IH]; intros acc; simpl.
  - by rewrite app_nil_r.
  - by rewrite IH, <- app_assoc.
Qed.

Lemma py_bind_out {A B} (m : py A) (f : A -> py B) out a out' r :
  m = (out, Ok a) -> f a = (out', r) -> m ≫= f = (out ++ out', r).
Proof. intros -> Hf. unfold mbind, py_bind. by rewrite Hf. Qed.

Lemma is_expired_sentinel self n arg s y m d :
  _get_last_stay_date (checkin_date self) n = ([MsgAtMost31], Ok (-1, -1, -1)) ->
  _get_year_month_day_from_str s = Ok (y, m, d) ->
  _is_expired self (VStr s) n arg = ([MsgAtMost31], Ok (Some false)).
Proof.
  intros Hlast Hs. destruct (parsed_fields_nonneg s y m d Hs) as (Hy & _ & _).
  unfold _is_expired. apply (py_bind_out _ _ [MsgAtMost31] (-1, -1, -1) []);
    [done|].
  simpl str_of. rewrite py_bind_lift_Ok, Hs, py_bind_lift_Ok.
  replace (-1 >? y) with false by lia. by replace (-1 =? y) with false by lia.
Qed.

(** X7. With a valid check-in date and more than 31 extension days,
    [date_filter] removes nothing: every offer whose [valid_to] can be
    parsed is kept, in order, and the message of [_get_last_stay_date] is
    printed once per offer. *)
Theorem date_filter_over_31 (self : APIHandling) (n : Z) :
  _is_valid_date (checkin_date self) true = mret true ->
  (forall a, In a (offers self) -> is_Some (offer_valid_to (heap self a))) ->
  n > 31 ->
  date_filter n self =
    (repeat MsgAtMost31 (length (offers self)),
     Ok (set_offers self (offers self))).
Proof.
  intros Hv Hwf Hn. unfold date_filter.
  assert (Hlast : _get_last_stay_date (checkin_date self) n
                  = ([MsgAtMost31], Ok (-1, -1, -1))).
  { unfold _get_last_stay_date.
    rewrite Hv, py_bind_mret. simpl assert. rewrite py_bind_lift_Ok.
    by replace (n >? 31) with true by lia. }
  rewrite (for_each_py_print _ (fun ans a => ans ++ [a]) MsgAtMost31).
  - unfold mbind, py_bind, mret, py_ret.
    by rewrite app_nil_r, fold_left_snoc.
  - intros ans a [[[y m] d] Ha]%Hwf.
    unfold offer_valid_to in Ha.
    destruct (heap self a) as [| | | | |o]; try discriminate.
    simpl subscript_key.
    destruct (o !! "valid_to") as [[| | |s| |]|]; try discriminate.
    rewrite py_bind_lift_Ok.
    destruct (_get_year_month_day_from_str s) as [[[y' m'] d']|] eqn:Hs;
      [|discriminate].
    by rewrite (is_expired_sentinel self n "" s y' m' d' Hlast Hs).
Qed.

Lemma date_filter_over_31_witness :
  date_filter 32 sample =
    ([MsgAtMost31; MsgAtMost31; MsgAtMost31; MsgAtMost31],
     Ok (set_offers sample [0; 1; 2; 3]%nat)).
Proof.
  apply (date_filter_over_31 sample 32).
  - reflexivity.
  - each_sample_offer; vm_compute; eauto.
  - lia.
Defined.

(** X8. The validity of the check-in date is asserted again inside the
    loop over the offers: with a check-in date that [_is_valid_date]
    rejects, when the first offer of the working set has a [valid_to]
    entry, [date_filter] raises [AssertionError] at that first offer and
    prints nothing, whatever that entry and the number of days are. *)
Theorem date_filter_invalid_checkin
    (self : APIHandling) (n : Z) (a : loc) (l : list loc)
    (d : gmap string value) (v : value) :
  _is_valid_date (checkin_date self) true = mret false ->
  offers self = a :: l ->
  heap self a = VDict d ->
  d !! "valid_to" = Some v ->
  date_filter n self = ([], Raise AssertionError).
Proof.
  intros Hv Hl Ha Hd. unfold date_filter. rewrite Hl. simpl for_each.
  rewrite Ha. simpl subscript_key. rewrite Hd. cbv iota.
  unfold _is_expired, _get_last_stay_date. by rewrite Hv.
Qed.

Lemma date_filter_invalid_checkin_witness :
  date_filter 5 (load_offers "2-30-2023" sample_offers)
  = ([], Raise AssertionError).
Proof.
  eapply (date_filter_invalid_checkin _ 5 0%nat [1; 2; 3]%nat _
            (VStr "2020-02-01")); reflexivity.
Defined.

(** * Further properties of construction and of the category filter *)

(** X9. [_receive_offers] returns a value exactly when the body of the
    response is a JSON object with an "offers" entry, and it returns that
    entry. A body that is a JSON list or string never gets through, even
    when it contains "offers". *)
Theorem receive_offers_Ok_iff (r : response) (v : value) :
  _receive_offers r = Ok v <->
  exists d, json r = Ok (VDict d) /\ d !! "offers" = Some v.
Proof.
  unfold _receive_offers. split.
  - destruct (json r) as [body|e]; [|discriminate]. simpl.
    destruct body as [| | |s|l|d]; try discriminate; simpl.
    + by destruct (String.index 0 "offers" s).
    + by destruct (existsb _ l).
    + destruct (d !! "offers") as [x|] eqn:E.
      * rewrite bool_decide_true by eauto. simpl. intros [= ->]. eauto.
      * rewrite bool_decide_false by (by intros [? ?]). discriminate.
  - intros (d & -> & Hd). simpl.
    by rewrite Hd, bool_decide_true by eauto.
Qed.

Lemma py_eqb_number v q :
  py_eqb v (VNum (Finite q)) = bool_decide (as_number v = Some q).
Proof.
  unfold py_eqb, as_number. simpl. destruct (numeric v) as [[p|negative]|] eqn:E.
  - apply bool_decide_ext. split; congruence.
  - rewrite !bool_decide_false; done.
  - destruct v; try discriminate; by rewrite bool_decide_false.
Qed.

Lemma get_category_enum_eq (category_id : value) :
  _get_category_enum category_id =
    if bool_decide (as_number category_id = Some (Q2Qc 1)) then Ok "RESTAURANT"%string
    else if bool_decide (as_number category_id = Some (Q2Qc 2)) then Ok "RETAIL"%string
    else if bool_decide (as_number category_id = Some (Q2Qc 3)) then Ok "HOTEL"%string
    else if bool_decide (as_number category_id = Some (Q2Qc 4)) then Ok "ACTIVITY"%string
    else Raise AssertionError.
Proof.
  unfold _get_category_enum, CATEGORY, VInt. simpl existsb. simpl find.
  rewrite !py_eqb_number.
  change (Q2Qc (inject_Z 1)) with (Q2Qc 1).
  change (Q2Qc (inject_Z 2)) with (Q2Qc 2).
  change (Q2Qc (inject_Z 3)) with (Q2Qc 3).
  change (Q2Qc (inject_Z 4)) with (Q2Qc 4).
  repeat case_bool_decide; done.
Qed.

(** X10. [_get_category_enum] returns the name of the category whose
    number the id equals, whether the id is an int, a float or a bool, and
    raises [AssertionError] for every other id: the lookup in the
    enumeration itself never fails. *)
Theorem get_category_enum_spec (category_id : value) :
  _get_category_enum category_id =
    if bool_decide (as_number category_id = Some (Q2Qc 1)) then Ok "RESTAURANT"%string
    else if bool_decide (as_number category_id = Some (Q2Qc 2)) then Ok "RETAIL"%string
    else if bool_decide (as_number category_id = Some (Q2Qc 3)) then Ok "HOTEL"%string
    else if bool_decide (as_number category_id = Some (Q2Qc 4)) then Ok "ACTIVITY"%string
    else Raise AssertionError.
Proof. apply get_category_enum_eq. Qed.

Lemma find_key_In (name : string) (m : category_map) :
  In name (map fst m) ->
  exists e, find (fun e => String.eqb name e.1) m = Some e /\ e.1 = name /\ In e m.
Proof.
  intros (e0 & He0 & Hin)%in_map_iff.
  destruct (find (fun e => String.eqb name e.1) m) as [e|] eqn:E.
  - apply find_some in E as [He Hn%String.eqb_eq]. eauto.
  - apply (find_none _ _ E) in Hin. rewrite He0, String.eqb_refl in Hin.
    discriminate.
Qed.

Lemma map_get_present cat l m name :
  map_inv cat l m -> (exists a, In a l /\ cat a = name) ->
  map_get name m = Ok (group cat name l).
Proof.
  intros (_ & Hall & Hcov) (a & Ha & Hname). unfold map_get.
  destruct (find_key_In name m) as (e & -> & He1 & He).
  { rewrite <- Hname. by apply Hcov. }
  rewrite List.Forall_forall in Hall. destruct (Hall e He) as [-> _].
  by rewrite He1.
Qed.

Lemma fold_left_flat_map {A B} (f : A -> list B) (l : list A) (acc : list B) :
  fold_left (fun ans x => ans ++ f x) l acc = acc ++ flat_map f l.
Proof.
  revert acc. induction l as [|x l IH]; intros acc; simpl.
  - by rewrite app_nil_r.
  - by rewrite IH, <- app_assoc.
Qed.

(** X11. On a working set whose offers all have a valid category id, when
    every requested name, once uppercased, is the category of some offer,
    [category_filter] succeeds and leaves the offers untouched; the new
    working set lists, for each requested name in the order requested, the
    offers of that category in their former order. So it holds exactly the
    offers whose category was requested, and an offer is listed once for
    each time its category is requested. *)
Theorem category_filter_selects
    (self : APIHandling) (desired_categories : list string) :
  (forall a, In a (offers self) -> is_Some (offer_category (heap self a))) ->
  (forall name, In name desired_categories ->
     exists a, In a (offers self) /\
               offer_category (heap self a) = Some (str_upper name)) ->
  exists after,
    category_filter desired_categories self = Ok after /\
    offers after = selected self desired_categories /\
    heap after = heap self /\
    checkin_date after = checkin_date self /\
    forall a, In a (offers after) <->
      In a (offers self) /\
      exists name, In name desired_categories /\
                   offer_category (heap self a) = Some (str_upper name).
Proof.
  intros Hwf Hall.
  assert (Hcat : forall a, In a (offers self) ->
            offer_category (heap self a) = Some (category_of self a)).
  { intros a [n Hn]%Hwf. unfold category_of. by rewrite Hn. }
  exists (set_offers self (selected self desired_categories)).
  split; [|split; [done|split; [done|split; [done|]]]];
    [|change (offers (set_offers self (selected self desired_categories)))
        with (selected self desired_categories)].
  - unfold category_filter.
    rewrite (get_category_offers_map_eq self Hwf). simpl.
    pose proof (build_inv (category_of self) (offers self)) as Hinv.
    rewrite (for_each_result_pure _
      (fun ans name => ans ++ group (category_of self) name (offers self))).
    + simpl. unfold selected, _standardize_category_names.
      rewrite fold_left_flat_map. simpl. do 2 f_equal.
      rewrite flat_map_concat_map, flat_map_concat_map, map_map. done.
    + intros ans name (n0 & <- & Hn0)%in_map_iff.
      destruct (Hall n0 Hn0) as (a & Ha & Hca).
      rewrite (map_get_present _ _ _ _ Hinv); [done|].
      exists a. split; [done|]. rewrite (Hcat a Ha) in Hca. congruence.
  - intros a. unfold selected. rewrite in_flat_map. split.
    + intros (name & Hname & [Ha Heq%String.eqb_eq]%filter_In).
      split; [done|]. exists name. split; [done|].
      by rewrite (Hcat a Ha), Heq.
    + intros [Ha (name & Hname & Hc)]. exists name. split; [done|].
      apply filter_In. split; [done|].
      rewrite (Hcat a Ha) in Hc. injection Hc as ->. apply String.eqb_refl.
Qed.

Lemma category_filter_selects_witness :
  exists after,
    category_filter ["retail"; "Restaurant"; "RETAIL"]%string sample = Ok after /\
    offers after = [1; 0; 2; 1]%nat /\ heap after = heap sample.
Proof.
  destruct (category_filter_selects sample
              ["retail"; "Restaurant"; "RETAIL"]%string)
    as (after & Hrun & Hoffers & Hheap & _).
  - each_sample_offer; vm_compute; eauto.
  - intros name [<-|[<-|[<-|[]]]];
      [exists 1%nat|exists 0%nat|exists 1%nat];
      (split; [simpl; tauto|reflexivity]).
  - exists after. split; [exact Hrun|]. split; [|exact Hheap].
    by rewrite Hoffers.
Defined.

Lemma category_step_dict self (m : category_map) (a : loc) d :
  heap self a = VDict d ->
  (has ← py_contains "category" (heap self a);
   _ ← assert has;
   category_id ← subscript_key (heap self a) "category";
   category_name ← _get_category_enum category_id;
   Ok (map_append category_name a m)) =
  match offer_category (heap self a) with
  | Some name => Ok (map_append name a m)
  | None => Raise AssertionError
  end.
Proof.
  intros ->. simpl. destruct (d !! "category") as [c|] eqn:E.
  - rewrite bool_decide_true by eauto. simpl.
    rewrite get_category_enum_eq. repeat case_bool_decide; done.
  - by rewrite bool_decide_false by (by intros [? ?]).
Qed.

(** X12. When the offers of the working set are JSON objects and one of
    them has no category, or a category id other than 1, 2, 3 and 4, the
    grouping by category raises [AssertionError], and with it both filters
    that group: [category_filter], whatever the names requested, and
    [closest_merchant_per_category_filter]. *)
Theorem category_grouping_asserts
    (self : APIHandling) (desired_categories : list string) :
  (forall a, In a (offers self) -> exists d, heap self a = VDict d) ->
  (exists a, In a (offers self) /\ offer_category (heap self a) = None) ->
  _get_category_offers_map self = Raise AssertionError /\
  category_filter desired_categories self = Raise AssertionError /\
  closest_merchant_per_category_filter self = Raise AssertionError.
Proof.
  intros Hdict (a & Ha & Hnone).
  assert (Hmap : _get_category_offers_map self = Raise AssertionError).
  { unfold _get_category_offers_map. apply for_each_raises.
    - intros m x [d Hd]%Hdict. rewrite (category_step_dict self m x d Hd).
      destruct (offer_category (heap self x)); eauto.
    - exists a. split; [done|]. intros m. destruct (Hdict a Ha) as [d Hd].
      by rewrite (category_step_dict self m a d Hd), Hnone. }
  split; [done|].
  unfold category_filter, closest_merchant_per_category_filter.
  by rewrite Hmap.
Qed.

Lemma category_grouping_asserts_witness :
  category_filter ["Restaurant"]%string
    (load_offers "2019-12-25"
       [mk_offer 1 1 "2020-02-01" (VList []); mk_offer 2 5 "2020-02-01" (VList [])])
  = Raise AssertionError.
Proof.
  apply category_grouping_asserts.
  - intros a [<-|[<-|[]]]; eexists; reflexivity.
  - exists 1%nat. split; [simpl; tauto|reflexivity].
Defined.

Lemma str_upper_app s t : str_upper (s +:+ t) = str_upper s +:+ str_upper t.
Proof.
  induction s as [|c s IH]; [done|].
  change (str_upper (String c (s +:+ t))
          = (char_upper c +:+ str_upper s) +:+ str_upper t).
  simpl str_upper at 1. rewrite IH. induction (char_upper c) as [|c' u IHu];
    [done|].
  change (String c' (u +:+ (str_upper s +:+ str_upper t))
          = String c' ((u +:+ str_upper s) +:+ str_upper t)).
  by rewrite IHu.
Qed.

Lemma char_upper_idemp c : str_upper (char_upper c) = char_upper c.
Proof. by destruct c as [[] [] [] [] [] [] [] []]; vm_compute. Qed.

Lemma str_upper_idemp s : str_upper (str_upper s) = str_upper s.
Proof.
  induction s as [|c s IH]; [done|].
  change (str_upper (char_upper c +:+ str_upper s)
          = char_upper c +:+ str_upper s).
  by rewrite str_upper_app, char_upper_idemp, IH.
Qed.

(** X13. [category_filter] reads the requested names only through their
    uppercase form: two lists of names that are equal once uppercased give
    the same outcome, and uppercasing the names beforehand changes
    nothing. The names are made of characters whose capital form has a code
    below 256, that is, any but the micro sign and the y with diaeresis. *)
Theorem category_filter_case_insensitive
    (self : APIHandling) (names names' : list string) :
  forallb (all_chars upper_in_range) names = true ->
  forallb (all_chars upper_in_range) names' = true ->
  map str_upper names = map str_upper names' ->
  category_filter names self = category_filter names' self /\
  category_filter (map str_upper names) self = category_filter names self.
Proof.
  intros _ _ Heq. unfold category_filter, _standardize_category_names.
  rewrite Heq. split; [done|].
  by rewrite map_map, (map_ext _ str_upper str_upper_idemp).
Qed.

Lemma category_filter_case_insensitive_witness :
  category_filter ["reTail"; "hotel"]%string sample
  = category_filter ["Retail"; "HOTEL"]%string sample.
Proof.
  apply (proj1 (category_filter_case_insensitive sample
                  ["reTail"; "hotel"]%string ["Retail"; "HOTEL"]%string
                  eq_refl eq_refl eq_refl)).
Defined.

(** * Further properties of the merchant filter and of the order of stages *)

Lemma collapsed_fields offer offer' :
  collapsed offer offer' ->
  offer_id offer' = offer_id offer /\
  offer_category offer' = offer_category offer /\
  offer_valid_to offer' = offer_valid_to offer /\
  merchants_is_record offer' = true /\
  exists q, offer_distance offer' = Some q /\ least_distance offer q.
Proof.
  intros (d & ms & m & -> & Hd & Hm & [q Hq] & Hmin & ->).
  unfold offer_id, offer_category, offer_valid_to, merchants_is_record,
    offer_distance, least_distance, merchant_list.
  rewrite !lookup_insert_ne by done. rewrite !lookup_insert_eq, Hd.
  split; [done|]. split; [done|]. split; [done|]. split.
  - by destruct m.
  - exists q. split; [done|]. exists ms, m. split; [done|]. split; [done|].
    split; [done|]. intros m' q' Hm' Hq'. by apply (Hmin m' q q').
Qed.

(** X14. [merchant_filter] prepares the later stages and touches nothing
    else: on a working set of distinct offer objects, each with a non-empty
    list of merchant records, it succeeds, keeps the check-in date and the
    list of offers, leaves the objects outside the working set as they are,
    and keeps the id, the category and the expiry date of every offer; the
    merchants entry of each offer becomes a record whose distance is the
    least of the distances that were listed. *)
Theorem merchant_filter_prepares (self : APIHandling) :
  List.NoDup (offers self) ->
  (forall a, In a (offers self) -> has_merchant_list (heap self a) = true) ->
  exists once,
    merchant_filter self = Ok once /\
    checkin_date once = checkin_date self /\
    offers once = offers self /\
    (forall a, ~ In a (offers self) -> heap once a = heap self a) /\
    forall a, In a (offers self) ->
      offer_id (heap once a) = offer_id (heap self a) /\
      offer_category (heap once a) = offer_category (heap self a) /\
      offer_valid_to (heap once a) = offer_valid_to (heap self a) /\
      merchants_is_record (heap once a) = true /\
      exists q, offer_distance (heap once a) = Some q /\
                least_distance (heap self a) q.
Proof.
  intros Hnd Hwf.
  destruct (merchant_loop (offers self) (heap self) Hnd Hwf)
    as (h' & Hloop & Hout & Hcol).
  exists (set_heap self h'). rewrite merchant_filter_unfold, Hloop.
  split; [done|]. split; [done|]. split; [done|]. split; [done|].
  intros a Ha. by apply collapsed_fields, Hcol.
Qed.

Lemma merchant_filter_prepares_witness :
  exists once,
    merchant_filter sample = Ok once /\
    offer_distance (heap once 2%nat) = Some (Q2Qc (3 # 10)).
Proof.
  destruct (merchant_filter_prepares sample) as (once & Hrun & _).
  - repeat constructor; simpl; intuition lia.
  - by each_sample_offer.
  - exists once. split; [done|].
    vm_compute in Hrun. injection Hrun as <-. reflexivity.
Defined.

Lemma collapse_offer_of_record offer :
  merchants_is_record offer = true ->
  collapse_offer offer = Raise AttributeError \/
  collapse_offer offer = Raise KeyError.
Proof.
  unfold merchants_is_record, collapse_offer.
  destruct offer as [| | | | |d]; try discriminate. simpl subscript_key.
  destruct (d !! "merchants") as [[| | | | |dm]|]; try discriminate.
  intros _. simpl. destruct (Z.of_nat (size dm) >? 1); auto.
Qed.

Lemma list_or_record_exclusive offer :
  has_merchant_list offer = true -> merchants_is_record offer = false.
Proof.
  unfold has_merchant_list, merchant_list, merchants_is_record.
  destruct offer as [| | | | |d]; try done.
  by destruct (d !! "merchants") as [[| | | | |]|].
Qed.

Lemma not_NoDup_cons {A} `{EqDecision A} (x : A) (l : list A) :
  ~ List.NoDup (x :: l) -> In x l \/ ~ List.NoDup l.
Proof.
  intros H. destruct (in_dec (fun a b => decide (a = b)) x l) as [|Hx]; [by left|].
  right. intros Hl. apply H. by constructor.
Qed.

Lemma merchant_loop_revisit (l : list loc) (h : loc -> value) :
  (forall a, In a l ->
     has_merchant_list (h a) = true \/ merchants_is_record (h a) = true) ->
  ~ List.NoDup l \/ (exists a, In a l /\ merchants_is_record (h a) = true) ->
  let run := for_each (fun (h : loc -> value) (a : loc) =>
                 offer ← collapse_offer (h a); Ok (<[a := offer]> h)) h l in
  run = Raise AttributeError \/ run = Raise KeyError.
Proof.
  revert h. induction l as [|x l IH]; intros h Hshape Hbad run; subst run.
  - destruct Hbad as [Hnd|(a & [] & _)]. destruct Hnd. constructor.
  - simpl. destruct (merchants_is_record (h x)) eqn:Hx.
    { destruct (collapse_offer_of_record _ Hx) as [-> | ->]; auto. }
    destruct (Hshape x) as [Hlist|Hrec]; [by left| |congruence].
    destruct (collapse_offer_list _ Hlist) as (o & -> & Hcol). simpl.
    destruct (collapsed_fields _ _ Hcol) as (_ & _ & _ & Ho & _).
    apply IH.
    + intros a Ha. destruct (decide (x = a)) as [<-|Hne].
      * right. by rewrite fn_lookup_insert.
      * rewrite fn_lookup_insert_ne by done. apply Hshape. by right.
    + destruct Hbad as [[Hin|Hnd]%not_NoDup_cons|(a & [<-|Ha] & Hrec)].
      * right. exists x. split; [done|]. by rewrite fn_lookup_insert.
      * by left.
      * congruence.
      * right. exists a. split; [done|].
        rewrite fn_lookup_insert_ne; [done|]. intros <-. congruence.
Qed.

(** X15. An offer object listed twice is collapsed once only: when the
    offers carry non-empty lists of merchant records and the working set
    lists some object more than once, as [category_filter] produces when a
    category is requested twice, [merchant_filter] raises [AttributeError]
    or [KeyError] at the second visit of that object. *)
Theorem merchant_filter_revisit (self : APIHandling) :
  (forall a, In a (offers self) -> has_merchant_list (heap self a) = true) ->
  ~ List.NoDup (offers self) ->
  merchant_filter self = Raise AttributeError \/
  merchant_filter self = Raise KeyError.
Proof.
  intros Hwf Hdup. rewrite merchant_filter_unfold.
  destruct (merchant_loop_revisit (offers self) (heap self)) as [-> | ->];
    auto.
Qed.

Lemma merchant_filter_revisit_witness :
  category_filter ["Retail"; "retail"]%string sample ≫= merchant_filter
  = Raise AttributeError.
Proof.
  destruct (merchant_filter_revisit (set_offers sample [1; 1]%nat))
    as [H|H].
  - intros a [<-|[<-|[]]]; reflexivity.
  - intros Hnd. apply List.NoDup_cons_iff in Hnd as [Hin _].
    apply Hin. by left.
  - exact H.
  - vm_compute in H. discriminate.
Defined.

(** X16. [closest_merchant_per_category_filter] cannot run before
    [merchant_filter]: on a non-empty working set of offers with valid
    categories whose merchants are still lists, the sort key
    [x['merchants']['distance']] indexes a list with a string and the
    filter raises [TypeError]. *)
Theorem closest_merchant_per_category_on_lists (self : APIHandling) :
  offers self <> [] ->
  (forall a, In a (offers self) ->
     is_Some (offer_category (heap self a)) /\
     is_Some (merchant_list (heap self a))) ->
  closest_merchant_per_category_filter self = Raise TypeError.
Proof.
  intros Hne Hwf. unfold closest_merchant_per_category_filter.
  rewrite get_category_offers_map_eq by (intros a Ha; by apply Hwf).
  destruct (build_inv (category_of self) (offers self)) as (_ & Hall & Hcov).
  destruct (build (category_of self) (offers self)) as [|e m] eqn:Hm.
  { destruct (offers self) as [|a l]; [done|].
    destruct (Hcov a (or_introl eq_refl)). }
  apply List.Forall_cons_iff in Hall as [[Hg Hgne] _].
  simpl. destruct e.2 as [|a g] eqn:He; [done|].
  assert (Ha : In a (offers self)).
  { assert (Hin : In a (group (category_of self) e.1 (offers self)))
      by (rewrite <- Hg; by left).
    by apply filter_In in Hin as [? _]. }
  destruct (Hwf a Ha) as [_ [ms Hms]]. unfold merchant_list in Hms.
  unfold sort_by_key. simpl mapM.
  destruct (heap self a) as [| | | | |d]; try discriminate.
  simpl subscript_key.
  by destruct (d !! "merchants") as [[| | | |l'|]|]; try discriminate.
Qed.

Lemma closest_merchant_per_category_on_lists_witness :
  closest_merchant_per_category_filter sample = Raise TypeError.
Proof.
  apply closest_merchant_per_category_on_lists.
  - discriminate.
  - each_sample_offer; vm_compute; eauto.
Defined.

Lemma merchant_record_not_key (ms : list value) (k : string) :
  forallb (fun m => if merchant_distance m is Some _ then true else false) ms
  = true ->
  existsb (py_eqb (VStr k)) ms = false.
Proof.
  induction ms as [|m ms IH]; simpl; [done|].
  intros [Hm Hms]%andb_prop. rewrite (IH Hms), orb_false_r.
  by destruct m.
Qed.

(** X17. [top_two_offers_filter] cannot run before [merchant_filter]
    either: when the first offer of the working set has an id that can be
    put in a set and still carries a list of merchant records, the
    assertion ['distance' in cur_merchant] tests membership in that list
    and fails, and the filter raises [AssertionError]. *)
Theorem top_two_offers_on_lists
    (self : APIHandling) (a : loc) (l : list loc) (i : value) :
  offers self = a :: l ->
  offer_id (heap self a) = Some i ->
  hashable i = true ->
  has_merchant_list (heap self a) = true ->
  top_two_offers_filter self = Raise AssertionError.
Proof.
  intros Hl Hi Hh Hlist.
  unfold top_two_offers_filter, _get_closest_merchant_offer. rewrite Hl.
  simpl for_each.
  unfold has_merchant_list, merchant_list in Hlist.
  destruct (heap self a) as [| | | | |d]; try discriminate.
  simpl in Hi. rewrite (get_offer_id_eq d i Hi). simpl.
  unfold set_contains. rewrite Hh. simpl.
  destruct (d !! "merchants") as [[| | | |ms|]|] eqn:Hd; try discriminate.
  rewrite (get_offer_merchants_eq d _ Hd). simpl.
  destruct ms as [|m ms]; [discriminate|].
  by rewrite (merchant_record_not_key (m :: ms) "distance" Hlist).
Qed.

Lemma top_two_offers_on_lists_witness :
  top_two_offers_filter sample = Raise AssertionError.
Proof.
  by apply (top_two_offers_on_lists sample 0%nat [1; 2; 3]%nat (VInt 1)).
Defined.

(** * Further properties of the search for the closest offer *)

Section scan_first.
Variables (k : loc -> Qc) (seen : loc -> bool).

Lemma scan_first_step l acc x :
  scan_first k seen l acc -> scan_first k seen (l ++ [x]) (scan_step k seen acc x).
Proof.
  unfold scan_step.
  intros [[-> Hseen]|(a & l1 & l2 & -> & -> & Hsa & Hbefore & Hafter)].
  - destruct (seen x) eqn:Hx; simpl.
    + left. split; [done|]. intros b [Hb|[<-|[]]]%in_app_or; auto.
    + right. exists x, l, []. split; [done|]. split; [done|]. split; [done|].
      split; [|intros ? []].
      intros b Hb Hsb. rewrite (Hseen b Hb) in Hsb. discriminate.
  - right. destruct (seen x) eqn:Hx; simpl.
    + exists a, l1, (l2 ++ [x]). split; [done|].
      split; [by rewrite <- app_assoc|]. split; [done|]. split; [done|].
      intros b [Hb|[<-|[]]]%in_app_or Hsb; [auto|congruence].
    + case_bool_decide as Hlt.
      * exists x, (l1 ++ a :: l2), []. split; [done|]. split; [done|].
        split; [done|]. split; [|intros ? []].
        intros b [Hb|[<-|Hb]]%in_app_or Hsb.
        -- eapply Qclt_trans; [exact Hlt|auto].
        -- done.
        -- eapply Qclt_le_trans; [exact Hlt|auto].
      * exists a, l1, (l2 ++ [x]). split; [done|].
        split; [by rewrite <- app_assoc|]. split; [done|]. split; [done|].
        intros b [Hb|[<-|[]]]%in_app_or Hsb; [auto|].
        by apply Qcnot_lt_le.
Qed.

Lemma scan_first_fold l :
  scan_first k seen l (fold_left (scan_step k seen) l (math_inf, None)).
Proof.
  induction l as [|x l IH] using rev_ind.
  - left. split; [done|]. intros ? [].
  - rewrite fold_left_app. by apply scan_first_step.
Qed.
End scan_first.

(** X18. On offers with an id that can be put in a set and a single
    merchant record with a finite numeric distance,
    [_get_closest_merchant_offer] does not raise. It returns nothing exactly when the id of every offer
    is in the set given; otherwise it returns an offer whose id is not in
    the set, strictly closer than every such offer before it in the working
    set and at least as close as every such offer after it: among equally
    close offers the first one wins. *)
Theorem get_closest_merchant_offer_first
    (self : APIHandling) (seen_offers_set : list value) :
  (forall a, In a (offers self) -> single_merchant_offer (heap self a) = true) ->
  exists r,
    _get_closest_merchant_offer self seen_offers_set = Ok r /\
    match r with
    | None =>
        forall b, In b (offers self) -> seen_in self seen_offers_set b = true
    | Some a =>
        exists l1 l2,
          offers self = l1 ++ a :: l2 /\
          seen_in self seen_offers_set a = false /\
          (forall b, In b l1 -> seen_in self seen_offers_set b = false ->
             (distance_of self a < distance_of self b)%Qc) /\
          (forall b, In b l2 -> seen_in self seen_offers_set b = false ->
             (distance_of self a <= distance_of self b)%Qc)
    end.
Proof.
  intros Hwf. rewrite (get_closest_merchant_offer_eq self _ Hwf).
  pose proof (scan_first_fold (distance_of self)
                (seen_in self seen_offers_set) (offers self)) as Hinv.
  destruct (fold_left _ (offers self) (math_inf, None)) as [least closest].
  exists closest. split; [done|].
  destruct Hinv as [[[= -> ->] Hseen]
                   |(a & l1 & l2 & [= -> ->] & Hl & Ha & Hbefore & Hafter)].
  - done.
  - by exists l1, l2.
Qed.

Lemma get_closest_merchant_offer_first_witness :
  _get_closest_merchant_offer
    (load_offers "2019-12-25"
       [mk_offer 1 1 "2020-02-01" (mk_merchant 1 "A" (1 # 2));
        mk_offer 2 1 "2020-02-01" (mk_merchant 2 "B" (1 # 4));
        mk_offer 3 1 "2020-02-01" (mk_merchant 3 "C" (1 # 4))]) []
  = Ok (Some 1%nat).
Proof.
  match goal with
  | |- _get_closest_merchant_offer ?st _ = _ =>
      destruct (get_closest_merchant_offer_first st [])
        as (r & Hr & _); [by intros a [<-|[<-|[<-|[]]]]|]
  end.
  rewrite Hr. vm_compute in Hr. by injection Hr as <-.
Defined.

(** * Ties, and the last three stages together *)

Lemma stable_sort_first {A} (l : list (number * A)) :
  l <> [] ->
  exists x rest l1 l2,
    stable_sort l = x :: rest /\ l = l1 ++ x :: l2 /\
    (forall y, In y l1 -> number_ltb x.1 y.1 = true) /\
    (forall y, In y l2 -> number_le x.1 y.1).
Proof.
  induction l as [|y l IH]; [done|]. intros _.
  destruct l as [|z l].
  { exists y, [], [], []. repeat split; intros ? []. }
  destruct IH as (h & rest & l1 & l2 & Hs & Hl & Hbefore & Hafter); [done|].
  change (stable_sort (y :: z :: l)) with (insert_by_key y (stable_sort (z :: l))).
  rewrite Hs, Hl. simpl. destruct (number_ltb h.1 y.1) eqn:Hlt.
  - exists h, (insert_by_key y rest), (y :: l1), l2.
    split; [done|]. split; [done|]. split; [|done].
    intros w [<-|Hw]; auto.
  - exists y, (h :: rest), [], (l1 ++ h :: l2).
    split; [done|]. split; [done|]. split; [intros ? []|].
    intros w [Hw|[<-|Hw]]%in_app_or; [|done|].
    + eapply number_le_trans; [exact Hlt|]. by apply number_lt_le, Hbefore.
    + eapply number_le_trans; [exact Hlt|]. by apply Hafter.
Qed.

(** The sort puts first the earliest of the elements of least key. *)
Lemma sort_by_key_first {A} (key : A -> result value) (k : A -> Qc) (l : list A) :
  l <> [] ->
  (forall a, In a l -> exists v, key a = Ok v /\ as_number v = Some (k a)) ->
  exists x rest l1 l2,
    sort_by_key key l = Ok (x :: rest) /\ l = l1 ++ x :: l2 /\
    (forall y, In y l1 -> (k x < k y)%Qc) /\
    (forall y, In y l2 -> (k x <= k y)%Qc).
Proof.
  intros Hne Hkey. unfold sort_by_key.
  destruct (mapM_result_Ok key (fun a v => as_number v = Some (k a)) l Hkey)
    as (vs & -> & Hvs). simpl.
  destruct (length l <? 2)%nat eqn:Hlen.
  - destruct l as [|x [|? ?]]; [done| |discriminate].
    exists x, [], [], []. repeat split; intros ? [].
  - rewrite (mapM_number_of (map k l)).
    2:{ clear -Hvs. induction Hvs; simpl; by constructor. }
    simpl. rewrite zip_keys.
    destruct (stable_sort_first (map (fun a => (Finite (k a), a)) l))
      as ([q x] & rest & p1 & p2 & -> & Hl & Hbefore & Hafter); [by destruct l|].
    apply map_eq_app in Hl as (l1 & l2' & -> & <- & Hl).
    apply map_eq_cons in Hl as (x' & l2 & -> & [= <- <-] & <-).
    exists x', (map snd rest), l1, l2. split; [done|]. split; [done|]. split.
    + intros y Hy. apply number_lt_finite.
      apply (Hbefore (Finite (k y), y)). apply in_map_iff. eauto.
    + intros y Hy. apply number_le_finite.
      apply (Hafter (Finite (k y), y)). apply in_map_iff. eauto.
Qed.

Lemma merchant_loop_gen (R : value -> value -> Prop) (l : list loc)
    (h : loc -> value) :
  List.NoDup l ->
  (forall a, In a l -> exists o, collapse_offer (h a) = Ok o /\ R (h a) o) ->
  exists h',
    for_each (fun (h : loc -> value) (a : loc) =>
        offer ← collapse_offer (h a); Ok (<[a := offer]> h)) h l = Ok h' /\
    (forall a, ~ In a l -> h' a = h a) /\
    (forall a, In a l -> R (h a) (h' a)).
Proof.
  revert h. induction l as [|x l IH]; intros h Hnd Hstep.
  - exists h. split; [done|]. split; [done|]. intros ? [].
  - apply List.NoDup_cons_iff in Hnd as [Hx Hnd].
    destruct (Hstep x) as (o & Ho & HR); [by left|].
    simpl. rewrite Ho. simpl.
    destruct (IH (<[x := o]> h) Hnd) as (h' & -> & Hout & Hin).
    { intros a Ha. rewrite fn_lookup_insert_ne by (by intros <-).
      apply Hstep. by right. }
    exists h'. split; [done|]. split.
    + intros a Ha. rewrite Hout by (intros ?; apply Ha; by right).
      apply fn_lookup_insert_ne. intros <-. apply Ha. by left.
    + intros a [<-|Ha].
      * by rewrite (Hout _ Hx), fn_lookup_insert.
      * specialize (Hin a Ha).
        by rewrite fn_lookup_insert_ne in Hin by (by intros <-).
Qed.

Lemma collapse_offer_first offer :
  has_merchant_list offer = true ->
  exists d l1 m l2,
    offer = VDict d /\ d !! "merchants" = Some (VList (l1 ++ m :: l2)) /\
    collapse_offer offer = Ok (VDict (<["merchants" := m]> d)) /\
    (forall m', In m' l1 ->
       strictly_closer (merchant_distance m) (merchant_distance m')) /\
    (forall m', In m' l2 ->
       closer_or_equal (merchant_distance m) (merchant_distance m')).
Proof.
  unfold has_merchant_list, merchant_list, collapse_offer.
  destruct offer as [| | | | |d]; try discriminate. simpl subscript_key.
  destruct (d !! "merchants") as [[| | | |ms|]|] eqn:Hd; try discriminate.
  destruct ms as [|m0 ms0] eqn:Hms; [discriminate|]. rewrite <- Hms.
  intros Hall. simpl.
  assert (Hdist : forall m, In m ms ->
            merchant_distance m = Some (merchant_distance_of m)).
  { intros m Hm. rewrite forallb_forall in Hall. specialize (Hall m Hm).
    unfold merchant_distance_of.
    by destruct (merchant_distance m); [|discriminate]. }
  assert (Hsel : exists m rest l1 l2,
    (if Z.of_nat (length ms) >? 1
     then list_sort (VList ms) (fun x => subscript_key x "distance")
     else Ok (VList ms)) = Ok (VList (m :: rest)) /\
    ms = l1 ++ m :: l2 /\
    (forall m', In m' l1 -> (merchant_distance_of m < merchant_distance_of m')%Qc) /\
    (forall m', In m' l2 -> (merchant_distance_of m <= merchant_distance_of m')%Qc)).
  { destruct (Z.of_nat (length ms) >? 1) eqn:Hlen.
    - destruct (sort_by_key_first (fun x => subscript_key x "distance")
                  merchant_distance_of ms)
        as (m & rest & l1 & l2 & Hsort & Hl & Hb & Ha); [by rewrite Hms| |].
      + intros a Ha. by apply merchant_distance_key, Hdist.
      + exists m, rest, l1, l2. simpl. by rewrite Hsort.
    - exists m0, ms0, [], ms0. rewrite Hms in *. split; [done|]. split; [done|].
      destruct ms0; [|rewrite Z.gtb_ltb, Z.ltb_ge in Hlen; simpl length in Hlen; lia].
      split; intros ? []. }
  simpl in Hsel. destruct Hsel as (m & rest & l1 & l2 & -> & Hl & Hb & Ha).
  simpl. exists d, l1, m, l2.
  assert (Hm : In m ms) by (rewrite Hl; apply in_elt).
  split; [done|]. split; [by rewrite <- Hl, Hms|]. split; [done|]. split.
  - intros m' Hm'. exists (merchant_distance_of m), (merchant_distance_of m').
    split; [by apply Hdist|]. split; [|by apply Hb].
    apply Hdist. rewrite Hl. apply in_or_app. by left.
  - intros m' Hm'. exists (merchant_distance_of m), (merchant_distance_of m').
    split; [by apply Hdist|]. split; [|by apply Ha].
    apply Hdist. rewrite Hl. apply in_or_app. right. by right.
Qed.

(** X19. Among merchants at the same least distance [merchant_filter]
    keeps the one listed first: for every offer the merchant kept is
    strictly closer than each merchant listed before it and at least as
    close as each merchant listed after it. *)
Theorem merchant_filter_keeps_first (self : APIHandling) :
  List.NoDup (offers self) ->
  (forall a, In a (offers self) -> has_merchant_list (heap self a) = true) ->
  exists once,
    merchant_filter self = Ok once /\
    forall a, In a (offers self) ->
      exists d l1 m l2,
        heap self a = VDict d /\
        d !! "merchants" = Some (VList (l1 ++ m :: l2)) /\
        heap once a = VDict (<["merchants" := m]> d) /\
        (forall m', In m' l1 ->
           strictly_closer (merchant_distance m) (merchant_distance m')) /\
        (forall m', In m' l2 ->
           closer_or_equal (merchant_distance m) (merchant_distance m')).
Proof.
  intros Hnd Hwf.
  destruct (merchant_loop_gen
    (fun offer offer' => exists d l1 m l2,
       offer = VDict d /\ d !! "merchants" = Some (VList (l1 ++ m :: l2)) /\
       offer' = VDict (<["merchants" := m]> d) /\
       (forall m', In m' l1 ->
          strictly_closer (merchant_distance m) (merchant_distance m')) /\
       (forall m', In m' l2 ->
          closer_or_equal (merchant_distance m) (merchant_distance m')))
    (offers self) (heap self) Hnd) as (h' & Hloop & _ & Hin).
  { intros a Ha.
    destruct (collapse_offer_first _ (Hwf a Ha))
      as (d & l1 & m & l2 & Hd & Hms & Hrun & Hb & Hafter).
    eexists. split; [exact Hrun|]. by exists d, l1, m, l2. }
  exists (set_heap self h'). rewrite merchant_filter_unfold, Hloop.
  split; [done|]. exact Hin.
Qed.

Lemma merchant_filter_keeps_first_witness :
  exists once,
    merchant_filter
      (load_offers "2019-12-25"
         [mk_offer 1 1 "2020-02-01"
            (VList [mk_merchant 1 "far" (2 # 1); mk_merchant 2 "first" (1 # 2);
                    mk_merchant 3 "second" (1 # 2)])]) = Ok once /\
    subscript_key (heap once 0%nat) "merchants"
    = Ok (mk_merchant 2 "first" (1 # 2)).
Proof.
  match goal with
  | |- exists once, merchant_filter ?st = _ /\ _ =>
      destruct (merchant_filter_keeps_first st) as (once & Hrun & _)
  end.
  - repeat constructor. intros [].
  - by intros a [<-|[]].
  - exists once. split; [done|].
    vm_compute in Hrun. injection Hrun as <-. reflexivity.
Defined.

Lemma filter_eq_app_cons {A} (p : A -> bool) (l g1 g2 : list A) (a : A) :
  List.filter p l = g1 ++ a :: g2 ->
  exists l1 l2, l = l1 ++ a :: l2 /\ List.filter p l1 = g1 /\
                List.filter p l2 = g2.
Proof.
  revert g1. induction l as [|x l IH]; intros g1; simpl.
  - by destruct g1.
  - destruct (p x) eqn:Hx.
    + destruct g1 as [|y g1]; simpl.
      * intros [= -> <-]. by exists [], l.
      * intros [= -> (l1 & l2 & -> & <- & <-)%IH].
        exists (y :: l1), l2. simpl. by rewrite Hx.
    + intros (l1 & l2 & -> & <- & <-)%IH.
      exists (x :: l1), l2. simpl. by rewrite Hx.
Qed.

(** The run of [closest_merchant_per_category_filter] on offers with a
    valid category and a single merchant record: each offer returned is the
    first of the closest offers of its category. *)
Lemma closest_merchant_per_category_run (self : APIHandling) :
  (forall a, In a (offers self) ->
     is_Some (offer_category (heap self a)) /\
     is_Some (offer_distance (heap self a))) ->
  exists xs,
    closest_merchant_per_category_filter self = Ok (set_offers self xs) /\
    (length xs <= length (offers self))%nat /\
    (offers self <> [] -> xs <> []) /\
    forall a, In a xs ->
      exists l1 l2,
        offers self = l1 ++ a :: l2 /\
        (forall b, In b l1 -> category_of self b = category_of self a ->
           (distance_of self a < distance_of self b)%Qc) /\
        (forall b, In b l2 -> category_of self b = category_of self a ->
           (distance_of self a <= distance_of self b)%Qc).
Proof.
  intros Hwf. unfold closest_merchant_per_category_filter.
  rewrite get_category_offers_map_eq by (intros a Ha; by apply Hwf).
  set (cat := category_of self). set (m := build cat (offers self)).
  destruct (build_inv cat (offers self)) as (Hnd & Hall & Hcov).
  fold m in Hnd, Hall, Hcov. rewrite List.Forall_forall in Hall.
  set (R := fun (e : string * list loc) (x : loc) =>
    exists g1 g2, group cat e.1 (offers self) = g1 ++ x :: g2 /\
      (forall y, In y g1 -> (distance_of self x < distance_of self y)%Qc) /\
      (forall y, In y g2 -> (distance_of self x <= distance_of self y)%Qc)).
  simpl.
  edestruct (for_each_collect
    (fun (answers : list loc) (entry : string * list loc) =>
       sorted ← sort_by_key (fun a =>
                   m ← subscript_key (heap self a) "merchants";
                   subscript_key m "distance") entry.2;
       first ← list_index sorted 0;
       Ok (answers ++ [first])) R m []) as (xs & -> & Hxs).
  { intros e He. destruct (Hall e He) as [Hg Hne].
    destruct (sort_by_key_first
      (fun a => m ← subscript_key (heap self a) "merchants";
                subscript_key m "distance")
      (distance_of self) e.2 Hne) as (x & rest & g1 & g2 & Hsort & Hl & Hb & Ha).
    { intros a Ha. rewrite Hg in Ha. apply filter_In in Ha as [Ha _].
      destruct (Hwf a Ha) as [_ [q Hq]]. unfold distance_of. rewrite Hq.
      by apply offer_distance_key. }
    exists x. split; [exists g1, g2; by rewrite <- Hg|].
    intros ans. by rewrite Hsort. }
  simpl. exists xs. split; [done|]. split; [|split].
  - rewrite <- (List.Forall2_length Hxs), <- (length_map fst m),
      <- (length_map cat (offers self)).
    apply NoDup_incl_length; [done|].
    intros name (e & <- & He)%in_map_iff.
    destruct (Hall e He) as [Hg Hne]. destruct e.2 as [|a g]; [done|].
    assert (Ha : In a (group cat e.1 (offers self))) by (rewrite <- Hg; by left).
    apply filter_In in Ha as [Ha Hn%String.eqb_eq].
    rewrite Hn. by apply in_map.
  - intros Hne ->. apply List.Forall2_length in Hxs.
    destruct (offers self) as [|a l]; [done|].
    specialize (Hcov a (or_introl eq_refl)). by destruct m.
  - intros a Ha.
    destruct (Forall2_In_r _ _ _ _ Hxs Ha) as (e & He & g1 & g2 & Hg & Hb & Hafter).
    assert (Hcat : cat a = e.1).
    { assert (Hin : In a (group cat e.1 (offers self)))
        by (rewrite Hg; apply in_elt).
      apply filter_In in Hin as [_ Hn%String.eqb_eq]. done. }
    apply filter_eq_app_cons in Hg as (l1 & l2 & Hl & <- & <-).
    exists l1, l2. split; [done|]. split.
    + intros b Hb1 Hsame. apply Hb, filter_In. split; [done|].
      rewrite <- Hcat, <- Hsame. apply String.eqb_refl.
    + intros b Hb2 Hsame. apply Hafter, filter_In. split; [done|].
      rewrite <- Hcat, <- Hsame. apply String.eqb_refl.
Qed.

(** X20. Among the closest offers of a category,
    [closest_merchant_per_category_filter] returns the first in the
    working set: each offer returned is strictly closer than every offer of
    its category placed before it, and at least as close as every offer of
    its category placed after it. The result is never longer than the
    working set given. *)
Theorem closest_merchant_per_category_first (self : APIHandling) :
  (forall a, In a (offers self) ->
     is_Some (offer_category (heap self a)) /\
     is_Some (offer_distance (heap self a))) ->
  exists after,
    closest_merchant_per_category_filter self = Ok after /\
    (length (offers after) <= length (offers self))%nat /\
    forall a, In a (offers after) ->
      exists l1 l2,
        offers self = l1 ++ a :: l2 /\
        (forall b, In b l1 ->
           offer_category (heap self b) = offer_category (heap self a) ->
           strictly_closer (offer_distance (heap self a))
                           (offer_distance (heap self b))) /\
        (forall b, In b l2 ->
           offer_category (heap self b) = offer_category (heap self a) ->
           closer_or_equal (offer_distance (heap self a))
                           (offer_distance (heap self b))).
Proof.
  intros Hwf.
  destruct (closest_merchant_per_category_run self Hwf)
    as (xs & Hrun & Hlen & _ & Hxs).
  exists (set_offers self xs). split; [done|]. split; [done|]. simpl.
  assert (Hcat : forall a, In a (offers self) ->
            offer_category (heap self a) = Some (category_of self a)).
  { intros a [[n Hn] _]%Hwf. unfold category_of. by rewrite Hn. }
  assert (Hdist : forall a, In a (offers self) ->
            offer_distance (heap self a) = Some (distance_of self a)).
  { intros a [_ [q Hq]]%Hwf. unfold distance_of. by rewrite Hq. }
  intros a Ha. destruct (Hxs a Ha) as (l1 & l2 & Hl & Hb & Hafter).
  assert (Hin : forall b, In b (l1 ++ a :: l2) -> In b (offers self))
    by (by rewrite Hl).
  exists l1, l2. split; [done|]. split.
  - intros b Hb1 Hsame.
    rewrite (Hcat a), (Hcat b) in Hsame
      by (apply Hin; auto using in_elt, in_or_app).
    injection Hsame as Hsame.
    exists (distance_of self a), (distance_of self b).
    split; [apply Hdist, Hin, in_elt|].
    split; [apply Hdist, Hin, in_or_app; by left|]. by apply Hb.
  - intros b Hb2 Hsame.
    rewrite (Hcat a), (Hcat b) in Hsame
      by (apply Hin; auto using in_elt, in_or_app, in_cons).
    injection Hsame as Hsame.
    exists (distance_of self a), (distance_of self b).
    split; [apply Hdist, Hin, in_elt|].
    split; [apply Hdist, Hin, in_or_app; right; by right|]. by apply Hafter.
Qed.

Lemma closest_merchant_per_category_first_witness :
  exists after,
    closest_merchant_per_category_filter
      (load_offers "2019-12-25"
         [mk_offer 1 1 "2020-02-01" (mk_merchant 1 "A" (1 # 2));
          mk_offer 2 1 "2020-02-01" (mk_merchant 2 "B" (1 # 4));
          mk_offer 3 1 "2020-02-01" (mk_merchant 3 "C" (1 # 4))]) = Ok after /\
    offers after = [1%nat].
Proof.
  match goal with
  | |- exists after, closest_merchant_per_category_filter ?st = _ /\ _ =>
      destruct (closest_merchant_per_category_first st) as (after & Hrun & _)
  end.
  - intros a [<-|[<-|[<-|[]]]]; vm_compute; eauto.
  - exists after. split; [done|].
    vm_compute in Hrun. by injection Hrun as <-.
Defined.

(** X21. The last three stages of the program run together: on a working
    set of distinct offer objects, each with a valid category, an id that
    can be put in a set and a non-empty list of merchant records with
    finite numeric distances, [merchant_filter], then [closest_merchant_per_category_filter], then
    [top_two_offers_filter] all succeed; what is left is one or two offers
    of the working set given, or none if it was empty. *)
Theorem last_three_stages (self : APIHandling) :
  List.NoDup (offers self) ->
  (forall a, In a (offers self) ->
     has_merchant_list (heap self a) = true /\
     is_Some (offer_category (heap self a)) /\
     exists i, offer_id (heap self a) = Some i /\ hashable i = true) ->
  exists final,
    (merchant_filter self ≫= closest_merchant_per_category_filter)
      ≫= top_two_offers_filter = Ok final /\
    (length (offers final) <= 2)%nat /\
    (offers self <> [] -> offers final <> []) /\
    forall a, In a (offers final) -> In a (offers self).
Proof.
  intros Hnd Hwf.
  destruct (merchant_loop (offers self) (heap self) Hnd) as (h' & Hloop & _ & Hcol).
  { intros a Ha. by apply Hwf. }
  rewrite merchant_filter_unfold, Hloop. simpl.
  set (once := set_heap self h').
  assert (Honce : forall a, In a (offers self) ->
    is_Some (offer_category (heap once a)) /\
    is_Some (offer_distance (heap once a)) /\
    single_merchant_offer (heap once a) = true).
  { intros a Ha. destruct (Hwf a Ha) as (_ & Hc & i & Hi & Hh).
    destruct (collapsed_fields _ _ (Hcol a Ha))
      as (Hid & Hcat & _ & _ & q & Hq & _).
    simpl. rewrite Hcat. split; [done|]. split; [eauto|].
    unfold single_merchant_offer. by rewrite Hid, Hi, Hq. }
  destruct (closest_merchant_per_category_run once)
    as (xs & -> & _ & Hne & Hxs).
  { intros a Ha. by destruct (Honce a Ha) as (? & ? & _). }
  simpl. set (grouped := set_offers once xs).
  assert (Hin : forall a, In a xs -> In a (offers self)).
  { intros a (l1 & l2 & Hl & _)%Hxs. simpl in Hl. rewrite Hl. apply in_elt. }
  assert (Hsingle : forall a, In a (offers grouped) ->
            single_merchant_offer (heap grouped a) = true).
  { intros a Ha%Hin. by destruct (Honce a Ha) as (_ & _ & ?). }
  pose proof (scan_fold (distance_of grouped) (seen_in grouped []) xs) as Hinv1.
  destruct (fold_left (scan_step (distance_of grouped) (seen_in grouped [])) xs
              (math_inf, None)) as [least1 c1] eqn:E1.
  pose proof (scan_fold (distance_of grouped)
                (seen_in grouped (if c1 is Some a then [id_of grouped a] else []))
                xs) as Hinv2.
  match type of Hinv2 with
  | scan_inv _ _ _ ?run => destruct run as [least2 c2] eqn:E2
  end.
  assert (Hc1 : forall a, c1 = Some a -> In a xs).
  { intros a ->. destruct Hinv1 as [[Heq _]|(a0 & Heq & Ha0 & _)];
      [discriminate Heq|]. by injection Heq as _ <-. }
  assert (Hc2 : forall a, c2 = Some a -> In a xs /\ is_Some c1).
  { intros a ->. destruct Hinv2 as [[Heq _]|(a0 & Heq & Ha0 & _)];
      [discriminate Heq|]. injection Heq as _ <-.
    split; [done|]. destruct c1 as [a1|]; [eauto|].
    rewrite E1 in E2. discriminate. }
  rewrite (top_two_offers_filter_run grouped c1 c2 Hsingle Hc1 Hc2);
    [|by simpl; rewrite E1|by simpl; rewrite E2].
  eexists. split; [done|]. simpl. split; [|split].
  - destruct c1, c2; simpl; lia.
  - intros Hself Hnil.
    destruct Hinv1 as [[Heq Hseen]|(a & Heq & _)].
    2:{ injection Heq as _ ->. discriminate. }
    destruct xs as [|x xs']; [by apply Hne|].
    discriminate (Hseen x (or_introl eq_refl)).
  - intros a [Ha|Ha]%in_app_or; apply Hin.
    + destruct c1; [|done]. destruct Ha as [<-|[]]. by apply Hc1.
    + destruct c2; [|done]. destruct Ha as [<-|[]]. by apply Hc2.
Qed.

Lemma last_three_stages_witness :
  exists final,
    (merchant_filter sample ≫= closest_merchant_per_category_filter)
      ≫= top_two_offers_filter = Ok final /\
    offers final = [2; 3]%nat.
Proof.
  destruct (last_three_stages sample) as (final & Hrun & _).
  - repeat constructor; simpl; intuition lia.
  - each_sample_offer; (split; [reflexivity|]);
      (split; [vm_compute; eauto|]); eexists; split; reflexivity.
  - exists final. split; [done|].
    vm_compute in Hrun. by injection Hrun as <-.
Defined.
